(** * FocusGate service worker: rule reconciliation, snooze timers and the
    command router, embedded from [src/unnamed/part_000] (the service worker),
    [src/blocked.js] (the blocked page) and [src/popup.js] (what the popup
    validates and what it asks permission for).

    Conventions of the embedding.
    - A JavaScript string is a Rocq [string]: a sequence of code units below
      U+0100.  [encodeURIComponent], [toLowerCase] and the regular expressions
      are written out for that range; code units from U+0100 on (and with them
      surrogates) are outside the model.
    - A JavaScript number is an integer of [Z], or [NaN] where a command
      carries it; fractions and infinities are outside the model.
    - [Date.now()] is a count of milliseconds since the epoch, an [N].
    - An object used as a dictionary is a [gmap] from its keys; keys inherited
      from [Object.prototype] are outside the model.
    - An [await] either yields a value or throws; what can throw is written
      as [Result].  Queries of chrome.permissions and updates of the dynamic
      rules may throw; reads and writes of chrome.storage and chrome.alarms
      are taken to succeed.
    - A handler runs to completion on one state of the world ([Run]); how
      calls of [syncRules] interleave is the subject of [Coordinator], how
      calls of [scheduleSync] are gathered that of [Debounce]. *)

From Stdlib Require Import ZArith NArith Ascii.
From stdpp Require Import base option list gmap strings pretty sorting.

Local Open Scope Z_scope.

(** ** Code that may throw *)

(** [OutOfFuel] marks a recursion budget that ran out; the worker's entry
    points never produce it (see [syncRules_fuel]). *)
Inductive Result (A : Type) : Type :=
| Ok (a : A)
| Throw (message : string)
| OutOfFuel.
Arguments Ok {A} a.
Arguments Throw {A} message.
Arguments OutOfFuel {A}.

(** ** Strings *)

Module JsString.

Definition chr (c : ascii) : N := N_of_ascii c.

Definition inRange (lo hi : N) (c : ascii) : bool :=
  ((lo <=? chr c) && (chr c <=? hi))%N.

Definition isUpperAZ (c : ascii) : bool := inRange 65 90 c.
Definition isLowerAZ (c : ascii) : bool := inRange 97 122 c.
Definition isDigit (c : ascii) : bool := inRange 48 57 c.

(** The characters [encodeURIComponent] leaves alone:
    [A-Z a-z 0-9 - _ . ! ~ * ' ( )]. *)
Definition uriMarks : list ascii :=
  ["-"; "_"; "."; "!"; "~"; "*"; "'"; "("; ")"]%char.

Definition isUnreserved (c : ascii) : bool :=
  isUpperAZ c || isLowerAZ c || isDigit c || existsb (Ascii.eqb c) uriMarks.

Definition hexDigit (n : N) : ascii :=
  (if n <? 10 then ascii_of_N (48 + n) else ascii_of_N (55 + n))%N.

(** [%XX], upper-case hexadecimal. *)
Definition percentByte (b : N) (tail : string) : string :=
  String "%" (String (hexDigit (b / 16)) (String (hexDigit (b mod 16)) tail)).

(** One code unit below U+0100 as UTF-8, percent-escaped. *)
Definition encodeUnit (c : ascii) (tail : string) : string :=
  if isUnreserved c then String c tail
  else if (chr c <? 128)%N then percentByte (chr c) tail
  else percentByte (192 + chr c / 64) (percentByte (128 + chr c mod 64) tail).

Fixpoint encodeURIComponent (s : string) : string :=
  match s with
  | EmptyString => EmptyString
  | String c rest => encodeUnit c (encodeURIComponent rest)
  end.

Definition hexVal (c : ascii) : option N :=
  if isDigit c then Some (chr c - 48)%N
  else if inRange 65 70 c then Some (chr c - 55)%N
  else if inRange 97 102 c then Some (chr c - 87)%N
  else None.

Definition hexByte (h l : ascii) : option N :=
  match hexVal h, hexVal l with
  | Some a, Some b => Some (16 * a + b)%N
  | _, _ => None
  end.

(** [decodeURIComponent]: [None] where the source throws [URIError], and
    also where the escaped bytes decode to a code point from U+0100 on
    (lead bytes from 0xC4), which this string type cannot hold. *)
Fixpoint decodeURIComponent (s : string) : option string :=
  match s with
  | EmptyString => Some EmptyString
  | String c rest =>
      if Ascii.eqb c "%" then
        match rest with
        | String h1 (String l1 rest1) =>
            match hexByte h1 l1 with
            | Some b =>
                if (b <? 128)%N then
                  String (ascii_of_N b) <$> decodeURIComponent rest1
                else if ((194 <=? b) && (b <=? 195))%N then
                  match rest1 with
                  | String p (String h2 (String l2 rest2)) =>
                      if Ascii.eqb p "%" then
                        match hexByte h2 l2 with
                        | Some b2 =>
                            if ((128 <=? b2) && (b2 <=? 191))%N then
                              String (ascii_of_N ((b - 192) * 64 + (b2 - 128)))
                                <$> decodeURIComponent rest2
                            else None
                        | None => None
                        end
                      else None
                  | _ => None
                  end
                else None
            | None => None
            end
        | _ => None
        end
      else String c <$> decodeURIComponent rest
  end.

(** [toLowerCase] on code units below U+0100: [A-Z] and U+00C0..U+00DE
    (without the multiplication sign U+00D7) move up by 32. *)
Definition lowerUnit (c : ascii) : ascii :=
  if isUpperAZ c || (inRange 192 222 c && negb (chr c =? 215)%N)
  then ascii_of_N (chr c + 32) else c.

Fixpoint toLowerCase (s : string) : string :=
  match s with
  | EmptyString => EmptyString
  | String c rest => String (lowerUnit c) (toLowerCase rest)
  end.

(** [s.replace(/^www\./i, "")]. *)
Definition isW (c : ascii) : bool := Ascii.eqb c "w" || Ascii.eqb c "W".

Definition stripWww (s : string) : string :=
  match s with
  | String a (String b (String c (String d rest))) =>
      if isW a && isW b && isW c && Ascii.eqb d "." then rest else s
  | _ => s
  end.

(** The capture [([^&]+)], greedy. *)
Fixpoint untilAmp (s : string) : string :=
  match s with
  | EmptyString => EmptyString
  | String c rest => if Ascii.eqb c "&" then EmptyString else String c (untilAmp rest)
  end.

(** [/[#&]d=([^&]+)/] tried at the head of [s]. *)
Definition matchParamHere (s : string) : option string :=
  match s with
  | String a (String b (String c (String x rest))) =>
      if (Ascii.eqb a "#" || Ascii.eqb a "&") && Ascii.eqb b "d"
         && Ascii.eqb c "=" && negb (Ascii.eqb x "&")
      then Some (untilAmp (String x rest)) else None
  | _ => None
  end.

(** [s.match(/[#&]d=([^&]+)/)]: the leftmost position that matches; the
    result is capture group 1. *)
Fixpoint matchParam (s : string) : option string :=
  match matchParamHere s with
  | Some m => Some m
  | None =>
      match s with
      | EmptyString => None
      | String _ rest => matchParam rest
      end
  end.

Fixpoint allChars (p : ascii -> bool) (s : string) : bool :=
  match s with
  | EmptyString => true
  | String c rest => p c && allChars p rest
  end.

(** What an encoded component is made of: unreserved characters and the
    [%] of an escape (whose two digits are unreserved themselves).  Angle
    brackets, the double quote, the ampersand, the hash sign, the slash,
    space and the control characters are not among them. *)
Definition uriSafe (c : ascii) : bool := isUnreserved c || Ascii.eqb c "%".

(** [a <= b] on strings, code unit by code unit, the order of
    [Array.prototype.sort] without a comparator. *)
Definition le (a b : string) : Prop := String.compare a b <> Gt.

End JsString.

(** ** Rules of the declarativeNetRequest layer *)

Record Rule := mkRule {
  id : Z;
  priority : Z;
  action_type : string;
  extensionPath : string;
  urlFilter : string;
  resourceTypes : list string
}.

Definition RULE_BASE : Z := 100000.

Definition domainRule (id : Z) (domain : string) : Rule :=
  let safeDomain := JsString.encodeURIComponent domain in
  {| id := id;
     priority := 1;
     action_type := "redirect";
     extensionPath := "/blocked.html#d=" +:+ safeDomain;
     urlFilter := "||" +:+ domain +:+ "^";
     resourceTypes := ["main_frame"] |}.

(** [activeDomains.map((d, i) => domainRule(RULE_BASE + i, d))] *)
Definition compileRules (activeDomains : list string) : list Rule :=
  imap (fun i d => domainRule (RULE_BASE + Z.of_nat i) d) activeDomains.

(** ** The blocked page *)

Module BlockedPage.

(** [location.hash] of the page a rule redirects to: the extension path from
    its first [#] on, and empty when nothing follows the [#].  The URL
    parser escapes only controls, space, double quote, [<], [>] and the
    backquote in a fragment. *)
Fixpoint locationHash (path : string) : string :=
  match path with
  | EmptyString => EmptyString
  | String c rest =>
      if Ascii.eqb c "#"
      then match rest with EmptyString => EmptyString | _ => path end
      else locationHash rest
  end.

(** [getDomainFromHash] of blocked.js; [None] when [decodeURIComponent]
    throws. *)
Definition getDomainFromHash (hash : string) : option string :=
  match JsString.matchParam hash with
  | Some m =>
      match JsString.decodeURIComponent m with
      | Some s => Some (JsString.toLowerCase (JsString.stripWww s))
      | None => None
      end
  | None => Some EmptyString
  end.

End BlockedPage.

(** ** JavaScript values carried by messages *)

Inductive JsVal : Type :=
| JUndefined
| JNull
| JBool (b : bool)
| JNaN
| JNum (n : Z)
| JStr (s : string)
| JObject.

Definition truthy (v : JsVal) : bool :=
  match v with
  | JUndefined | JNull | JNaN => false
  | JBool b => b
  | JNum n => negb (n =? 0)
  | JStr s => negb (String.eqb s "")
  | JObject => true
  end.

Definition isString (v : JsVal) : bool :=
  match v with JStr _ => true | _ => false end.

(** [String(v)], the key under which [obj[v]] reads and writes. *)
Definition toPropertyKey (v : JsVal) : string :=
  match v with
  | JUndefined => "undefined"
  | JNull => "null"
  | JBool true => "true"
  | JBool false => "false"
  | JNaN => "NaN"
  | JNum n => pretty n
  | JStr s => s
  | JObject => "[object Object]"
  end.

(** [ts && now < ts]: a stored timestamp that is set and still ahead. *)
Definition live (now : N) (ts : Z) : bool := negb (ts =? 0) && (Z.of_N now <? ts).

(** [ts && ts <= now]: a stored timestamp that is set and has passed. *)
Definition lapsed (now : N) (ts : Z) : bool := negb (ts =? 0) && (ts <=? Z.of_N now).

Definition liveEntry (now : N) (entry : option Z) : bool :=
  match entry with Some ts => live now ts | None => false end.

(** ** The worker's state and its surroundings *)

Record Flags := mkFlags {
  _syncing : bool;
  _needsResync : bool
}.

(** chrome.storage: [blockedDomains] in the sync area, the rest local.  A key
    that was never written reads as its default ([[]], [0], [{}]). *)
Record Storage := mkStorage {
  blockedDomains : list string;
  pausedUntilTs : Z;
  pausedDomains : gmap string Z;
  pendingGrants : gmap string Z
}.

(** A record of what happened, oldest first: the origin patterns asked of
    chrome.permissions, the calls of [updateDynamicRules] (ids to remove,
    rules to add), and the number of passes begun. *)
Record Trace := mkTrace {
  permissionQueries : list string;
  ruleUpdates : list (list Z * list Rule);
  passes : nat
}.

Record World := mkWorld {
  storage : Storage;
  dynamicRules : list Rule;
  alarms : gmap string Z;
  flags : Flags;
  ticks : nat;
  trace : Trace
}.

(** What [chrome.permissions.contains] does for one origin pattern. *)
Inductive Answer : Type :=
| Granted
| NotGranted
| QueryFails (message : string).

(** The browser as the worker sees it during one run: the clock ([Date.now()]
    at its k-th reading), the granted origin patterns, and the browser's
    verdict on a rule update ([Some message] rejects it). *)
Record Env := mkEnv {
  clock : nat -> N;
  contains : string -> Answer;
  rejects : list Rule -> list Z -> list Rule -> option string
}.

Definition withStorage (f : Storage -> Storage) (w : World) : World :=
  {| storage := f (storage w); dynamicRules := dynamicRules w; alarms := alarms w;
     flags := flags w; ticks := ticks w; trace := trace w |}.
Definition withRules (f : list Rule -> list Rule) (w : World) : World :=
  {| storage := storage w; dynamicRules := f (dynamicRules w); alarms := alarms w;
     flags := flags w; ticks := ticks w; trace := trace w |}.
Definition withAlarms (f : gmap string Z -> gmap string Z) (w : World) : World :=
  {| storage := storage w; dynamicRules := dynamicRules w; alarms := f (alarms w);
     flags := flags w; ticks := ticks w; trace := trace w |}.
Definition withFlags (f : Flags -> Flags) (w : World) : World :=
  {| storage := storage w; dynamicRules := dynamicRules w; alarms := alarms w;
     flags := f (flags w); ticks := ticks w; trace := trace w |}.
Definition withTicks (f : nat -> nat) (w : World) : World :=
  {| storage := storage w; dynamicRules := dynamicRules w; alarms := alarms w;
     flags := flags w; ticks := f (ticks w); trace := trace w |}.
Definition withTrace (f : Trace -> Trace) (w : World) : World :=
  {| storage := storage w; dynamicRules := dynamicRules w; alarms := alarms w;
     flags := flags w; ticks := ticks w; trace := f (trace w) |}.

(** ** The monad of the worker's code: state, and a result or an exception *)

Definition Run (A : Type) : Type := World -> World * Result A.

Definition ret {A} (a : A) : Run A := fun w => (w, Ok a).
Definition throw {A} (message : string) : Run A := fun w => (w, Throw message).
Definition bind {A B} (m : Run A) (k : A -> Run B) : Run B :=
  fun w => match m w with
           | (w1, Ok a) => k a w1
           | (w1, Throw e) => (w1, Throw e)
           | (w1, OutOfFuel) => (w1, OutOfFuel)
           end.

#[global] Instance Run_ret : MRet Run := @ret.
#[global] Instance Run_bind : MBind Run := fun A B k m => bind m k.

(** [try { body } catch { handler }] *)
Definition tryCatch {A} (body : Run A) (handler : string -> Run A) : Run A :=
  fun w => match body w with
           | (w1, Ok a) => (w1, Ok a)
           | (w1, Throw e) => handler e w1
           | (w1, OutOfFuel) => (w1, OutOfFuel)
           end.

(** [try { body } finally { after }]: an exception of [after] replaces the
    outcome of [body]. *)
Definition tryFinally {A} (body : Run A) (after : Run unit) : Run A :=
  fun w => match body w with
           | (w1, r) =>
               match after w1 with
               | (w2, Ok _) => (w2, r)
               | (w2, Throw e) => (w2, Throw e)
               | (w2, OutOfFuel) => (w2, OutOfFuel)
               end
           end.

Definition modify (f : World -> World) : Run unit := fun w => (f w, Ok tt).
Definition get {A} (f : World -> A) : Run A := fun w => (w, Ok (f w)).

(** [Array.from(new Set(l))]: first occurrences, in order of insertion. *)
Definition setAdd (seen : list string) (x : string) : list string :=
  if decide (x ∈ seen) then seen else seen ++ [x].
Definition arrayFromSet (l : list string) : list string := foldl setAdd [] l.

#[global] Instance JsString_le_dec : RelDecision JsString.le.
Proof. intros a b. unfold JsString.le. apply _. Defined.

(** [a.sort()] on an array of strings. *)
Definition sort (l : list string) : list string := merge_sort JsString.le l.

(** [r.id >= RULE_BASE && r.id < RULE_BASE + 90000] *)
Definition inOurRange (r : Rule) : bool :=
  (RULE_BASE <=? id r) && (id r <? RULE_BASE + 90000).

(** The flag protocol of [syncRules], shared by the run-to-completion code
    below and by the interleaved coordinator further down. *)

(** Lines 195-199: the call returns at once ([false]) or claims the mutex. *)
Definition enter (f : Flags) : Flags * bool :=
  if _syncing f
  then ({| _syncing := true; _needsResync := true |}, false)
  else ({| _syncing := true; _needsResync := _needsResync f |}, true).

(** Lines 230-233: the mutex is released; [true] asks for the trailing call. *)
Definition leave (f : Flags) : Flags * bool :=
  ({| _syncing := false; _needsResync := false |}, _needsResync f).

(** The origin patterns [hasHostAccess] asks about, in its order. *)
Definition checks (domain : string) : list string :=
  [ "*://*/*";
    "https://*." +:+ domain +:+ "/*";
    "http://*." +:+ domain +:+ "/*";
    "https://" +:+ domain +:+ "/*";
    "http://" +:+ domain +:+ "/*" ].

Definition noteQueries (qs : list string) : World -> World :=
  withTrace (fun t => mkTrace (permissionQueries t ++ qs) (ruleUpdates t) (passes t)).

(** The permission check in the words of its contract: a pattern matches when
    the query for it answers yes (a failing query does not match); patterns
    are asked in order up to and including the first that matches. *)
Definition matches (env : Env) (q : string) : bool :=
  match contains env q with
  | Granted => true
  | NotGranted | QueryFails _ => false
  end.

Fixpoint askedUntilMatch (env : Env) (qs : list string) : list string :=
  match qs with
  | [] => []
  | q :: rest => if matches env q then [q] else q :: askedUntilMatch env rest
  end.

(** A domain the check looks at: a string, not empty, of at most 253 code
    units. *)
Definition wellFormed (v : JsVal) : bool :=
  match v with
  | JStr s => negb (String.eqb s "") && (String.length s <=? 253)%nat
  | _ => false
  end.

(** What [hasHostAccess] answers for a domain of the blocklist. *)
Definition hasAccess (env : Env) (d : string) : bool :=
  wellFormed (JStr d) && existsb (matches env) (checks d).

(** The contract of the reconciler: a domain is allowed when its pending
    grant is still running or the permission check reports access. *)
Definition permitted (env : Env) (now : N) (pending : gmap string Z) (d : string) : bool :=
  liveEntry now (pending !! d) || hasAccess env d.

Definition lapsedEntry (now : N) (entry : option Z) : bool :=
  match entry with Some ts => lapsed now ts | None => false end.

(** The pending grants once the lapsed entries of the scanned domains are
    deleted. *)
Definition sweep (now : N) (domains : list string) (pending : gmap string Z) : gmap string Z :=
  foldl (fun p d => if lapsedEntry now (p !! d) then delete d p else p) pending domains.

Section Worker.

Variable env : Env.

(** *** Browser interfaces *)

Definition Date_now : Run N :=
  fun w => (withTicks S w, Ok (clock env (ticks w))).

Definition getState : Run Storage := get storage.

Definition getPendingGrants : Run (gmap string Z) := get (fun w => pendingGrants (storage w)).

Definition set_blockedDomains (v : list string) : Run unit :=
  modify (withStorage (fun s => mkStorage v (pausedUntilTs s) (pausedDomains s) (pendingGrants s))).
Definition set_pausedUntilTs (v : Z) : Run unit :=
  modify (withStorage (fun s => mkStorage (blockedDomains s) v (pausedDomains s) (pendingGrants s))).
Definition set_pausedDomains (v : gmap string Z) : Run unit :=
  modify (withStorage (fun s => mkStorage (blockedDomains s) (pausedUntilTs s) v (pendingGrants s))).
Definition set_pendingGrants (v : gmap string Z) : Run unit :=
  modify (withStorage (fun s => mkStorage (blockedDomains s) (pausedUntilTs s) (pausedDomains s) v)).

(** [chrome.permissions.contains({origins: [q]})] *)
Definition permissions_contains (q : string) : Run bool :=
  fun w =>
    (noteQueries [q] w,
     match contains env q with
     | Granted => Ok true
     | NotGranted => Ok false
     | QueryFails message => Throw message
     end).

Definition getDynamicRules : Run (list Rule) := get dynamicRules.

(** [chrome.declarativeNetRequest.updateDynamicRules]: the listed ids are
    removed and the new rules added in one step, or the call is rejected and
    nothing changes. *)
Definition updateDynamicRules (removeRuleIds : list Z) (addRules : list Rule) : Run unit :=
  fun w =>
    let w1 := withTrace (fun t => mkTrace (permissionQueries t)
                                    (ruleUpdates t ++ [(removeRuleIds, addRules)])
                                    (passes t)) w in
    match rejects env (dynamicRules w) removeRuleIds addRules with
    | Some message => (w1, Throw message)
    | None =>
        (withRules (fun rs => filter (fun r => id r ∉ removeRuleIds) rs ++ addRules) w1, Ok tt)
    end.

Definition alarms_create (name : string) (when : Z) : Run unit :=
  modify (withAlarms (fun a => <[name := when]> a)).
Definition alarms_clear (name : string) : Run unit :=
  modify (withAlarms (fun a => delete name a)).

(** *** Storage helpers *)

(** [pausedUntilTs: untilTs || 0] *)
Definition setGlobalPause (untilTs : Z) : Run unit :=
  set_pausedUntilTs (if untilTs =? 0 then 0 else untilTs).

Definition setDomainPause (domain : string) (untilTs : Z) : Run unit :=
  paused ← get (fun w => pausedDomains (storage w));
  keep ← (if untilTs =? 0 then ret false
          else now ← Date_now; ret (Z.of_N now <? untilTs));
  set_pausedDomains (if keep : bool then <[domain := untilTs]> paused else delete domain paused).

Definition clearAllDomainPauses : Run unit := set_pausedDomains ∅.

Definition setPendingGrant (domain : JsVal) (untilTs : Z) : Run unit :=
  pending ← getPendingGrants;
  keep ← (if untilTs =? 0 then ret false
          else now ← Date_now; ret (Z.of_N now <? untilTs));
  set_pendingGrants (if keep : bool then <[toPropertyKey domain := untilTs]> pending
                     else delete (toPropertyKey domain) pending).

(** *** Permission reconciliation *)

(** [for (const q of checks) { try { if (await contains(q)) return true; } catch {} }
    return false;] *)
Fixpoint checkEach (qs : list string) : Run bool :=
  match qs with
  | [] => ret false
  | q :: rest =>
      hit ← tryCatch (permissions_contains q) (fun _ => ret false);
      if hit : bool then ret true else checkEach rest
  end.

Definition hasHostAccess (domain : JsVal) : Run bool :=
  match domain with
  | JStr s =>
      if negb (truthy domain) || (253 <? String.length s)%nat then ret false
      else checkEach (checks s)
  | _ => ret false
  end.

(** The local variables of [reconcileDomains]. *)
Record Scan := mkScan {
  pending : gmap string Z;
  pendingChanged : bool;
  allowed : list string;
  denied : list string
}.

(** The body of [for (const d of domains)]. *)
Definition scanOne (now : N) (d : string) (st : Scan) : Run Scan :=
  let inPending := liveEntry now (pending st !! d) in
  ok ← (if inPending then ret true else hasHostAccess (JStr d));
  let st1 :=
    if ok : bool
    then mkScan (pending st) (pendingChanged st) (allowed st ++ [d]) (denied st)
    else mkScan (pending st) (pendingChanged st) (allowed st) (denied st ++ [d]) in
  ret (match pending st1 !! d with
       | Some ts =>
           if lapsed now ts
           then mkScan (delete d (pending st1)) true (allowed st1) (denied st1)
           else st1
       | None => st1
       end).

Fixpoint scanAll (now : N) (domains : list string) (st : Scan) : Run Scan :=
  match domains with
  | [] => ret st
  | d :: rest => st1 ← scanOne now d st; scanAll now rest st1
  end.

Definition reconcileDomains (domains : list string) : Run (list string) :=
  now ← Date_now;
  pending0 ← getPendingGrants;
  st ← scanAll now domains (mkScan pending0 false [] []);
  _ ← (if pendingChanged st then set_pendingGrants (pending st) else ret tt);
  _ ← (match denied st with
       | [] => ret tt
       | _ :: _ => set_blockedDomains (sort (arrayFromSet (allowed st)))
       end);
  ret (allowed st).

(** *** Rule synchronization *)

(** [permitted.filter(d => !(pausedDomains[d] && now < pausedDomains[d]))],
    or nothing at all under a global pause. *)
Definition activeDomains (now : N) (s : Storage) (permitted : list string) : list string :=
  if live now (pausedUntilTs s) then []
  else filter (fun d => liveEntry now (pausedDomains s !! d) = false) permitted.

(** The [try] block of [syncRules]. *)
Definition syncBody : Run unit :=
  s ← getState;
  now ← Date_now;
  permitted ← reconcileDomains (blockedDomains s);
  let desiredRules := compileRules (activeDomains now s permitted) in
  existing ← getDynamicRules;
  let ourIds := id <$> filter (fun r => inOurRange r = true) existing in
  updateDynamicRules ourIds desiredRules.

Definition notePass : Run unit :=
  modify (withTrace (fun t => mkTrace (permissionQueries t) (ruleUpdates t) (S (passes t)))).

Definition claimMutex : Run bool :=
  fun w => (withFlags (fun f => (enter f).1) w, Ok (enter (flags w)).2).
Definition releaseMutex : Run bool :=
  fun w => (withFlags (fun f => (leave f).1) w, Ok (leave (flags w)).2).
Definition outOfFuel : Run unit := fun w => (w, OutOfFuel).

(** [syncRules], run to completion with nothing interleaved.  [depth] bounds
    the nesting of the call in the [finally] block. *)
Fixpoint syncRulesFrom (depth : nat) : Run unit :=
  started ← claimMutex;
  if started : bool then
    _ ← notePass;
    tryFinally syncBody
      (again ← releaseMutex;
       if again : bool then
         match depth with
         | S depth' => syncRulesFrom depth'
         | O => outOfFuel
         end
       else ret tt)
  else ret tt.

Definition syncRules : Run unit := syncRulesFrom 1.

(** *** Snooze *)

Fixpoint forEach {A} (l : list A) (f : A -> Run unit) : Run unit :=
  match l with
  | [] => ret tt
  | x :: rest => _ ← f x; forEach rest f
  end.

Definition pauseAllForMinutes (m : Z) : Run unit :=
  now ← Date_now;
  let until := Z.of_N now + m * 60000 in
  _ ← setGlobalPause until;
  _ ← syncRules;
  alarms_create "fg:resumeAll" until.

Definition resumeAllNow : Run unit :=
  _ ← setGlobalPause 0;
  _ ← clearAllDomainPauses;
  _ ← syncRules;
  _ ← alarms_clear "fg:resumeAll";
  names ← get (fun w => (map_to_list (alarms w)).*1);
  forEach names (fun name =>
    if String.prefix "fg:resume:" name then alarms_clear name else ret tt).

Definition pauseDomainForMinutes (d : JsVal) (m : Z) : Run unit :=
  match d with
  | JStr s =>
      if negb (truthy d) then ret tt
      else
        now ← Date_now;
        let until := Z.of_N now + m * 60000 in
        _ ← setDomainPause s until;
        _ ← syncRules;
        alarms_create ("fg:resume:" +:+ s) until
  | _ => ret tt
  end.

Definition resumeDomainNow (d : JsVal) : Run unit :=
  match d with
  | JStr s =>
      if negb (truthy d) then ret tt
      else
        _ ← setDomainPause s 0;
        _ ← syncRules;
        alarms_clear ("fg:resume:" +:+ s)
  | _ => ret tt
  end.

(** *** Startup *)

(** The [onStartup] listener.  [Object.entries] is read off the map; the
    alarm names of distinct domains are distinct, so the order of the
    entries does not show in the alarms that result. *)
Definition onStartup : Run unit :=
  s ← getState;
  now ← Date_now;
  _ ← (if live now (pausedUntilTs s)
       then alarms_create "fg:resumeAll" (pausedUntilTs s) else ret tt);
  _ ← forEach (map_to_list (pausedDomains s)) (fun entry =>
         if live now entry.2
         then alarms_create ("fg:resume:" +:+ entry.1) entry.2 else ret tt);
  syncRules.

(** *** Message handler *)

Record Message := mkMessage {
  cmd : JsVal;
  domain : JsVal;
  minutes : JsVal
}.

(** [{ok: true}] carries no [error]; [{ok: false, error}] carries one. *)
Record Response := mkResponse {
  ok : bool;
  error : option string
}.

Definition success : Response := mkResponse true None.
Definition failure (message : string) : Response := mkResponse false (Some message).

(** [typeof v === 'number' && v > 0] *)
Definition positiveNumber (v : JsVal) : option Z :=
  match v with
  | JNum n => if 0 <? n then Some n else None
  | _ => None
  end.

Definition dispatch (msg : Message) : Run Response :=
  match cmd msg with
  | JStr c =>
      if String.eqb c "syncRules" then
        _ ← syncRules; ret success
      else if String.eqb c "pauseForMinutes" then
        match positiveNumber (minutes msg) with
        | Some m => _ ← pauseAllForMinutes m; ret success
        | None => ret (failure "Invalid minutes")
        end
      else if String.eqb c "resumeNow" then
        _ ← resumeAllNow; ret success
      else if String.eqb c "pauseDomain" then
        match (if truthy (domain msg) then positiveNumber (minutes msg) else None) with
        | Some m => _ ← pauseDomainForMinutes (domain msg) m; ret success
        | None => ret (failure "Invalid domain or minutes")
        end
      else if String.eqb c "resumeDomain" then
        if truthy (domain msg)
        then _ ← resumeDomainNow (domain msg); ret success
        else ret (failure "Invalid domain")
      else if String.eqb c "markPending" then
        if truthy (domain msg)
        then now ← Date_now;
             _ ← setPendingGrant (domain msg) (Z.of_N now + 15000);
             ret success
        else ret (failure "Invalid domain")
      else if String.eqb c "markGranted" then
        if truthy (domain msg)
        then _ ← setPendingGrant (domain msg) 0;
             _ ← syncRules;
             ret success
        else ret (failure "Invalid domain")
      else ret (failure "Unknown command")
  | _ => ret (failure "Unknown command")
  end.

(** The [onMessage] listener; its result is what [sendResponse] receives. *)
Definition onMessage (msg : Message) : Run Response :=
  tryCatch (dispatch msg) (fun message => ret (failure message)).

(** *** The other listeners *)

(** The [onAlarm] listener. *)
Definition onAlarm (name : string) : Run unit :=
  if String.eqb name "fg:resumeAll" then resumeAllNow
  else if String.prefix "fg:resume:" name then
    let domain := String.substring 10 (String.length name - 10) name in
    if truthy (JStr domain) then resumeDomainNow (JStr domain) else ret tt
  else ret tt.

(** The [storage.onChanged] listener on a change of [blockedDomains] in the
    sync area, up to the point where it schedules a sync; the debounce timer
    then calls [syncRules]. *)
Definition onBlocklistChanged (oldArr newArr : list string) : Run unit :=
  let added := filter (fun d => d ∉ oldArr) newArr in
  now ← Date_now;
  let until := Z.of_N now + 15000 in
  forEach added (fun d => tryCatch (setPendingGrant (JStr d) until) (fun _ => ret tt)).

(** The listeners of [permissions.onAdded], [permissions.onRemoved] and
    [runtime.onInstalled], and the debounce timer when it fires. *)
Definition onPermissionsChanged : Run unit := syncRules.

End Worker.

(** ** The reconciler and a pass as functions of the state

    What the loops above compute, written without the monad; the theorems
    below prove that the code computes just this. *)

Definition accessQueries (env : Env) (d : string) : list string :=
  if wellFormed (JStr d) then askedUntilMatch env (checks d) else [].

(** One turn of the [for] loop of [reconcileDomains] on its local variables. *)
Definition scanStep (env : Env) (now : N) (st : Scan) (d : string) : Scan :=
  let st1 :=
    if permitted env now (pending st) d
    then mkScan (pending st) (pendingChanged st) (allowed st ++ [d]) (denied st)
    else mkScan (pending st) (pendingChanged st) (allowed st) (denied st ++ [d]) in
  if lapsedEntry now (pending st !! d)
  then mkScan (delete d (pending st)) true (allowed st1) (denied st1)
  else st1.

(** Storage after [reconcileDomains] has scanned [domains] at time [now]. *)
Definition reconcileStorage (env : Env) (now : N) (domains : list string) (s : Storage) : Storage :=
  mkStorage
    (if forallb (permitted env now (pendingGrants s)) domains
     then blockedDomains s
     else sort (arrayFromSet
                 (filter (fun d => permitted env now (pendingGrants s) d = true) domains)))
    (pausedUntilTs s)
    (pausedDomains s)
    (sweep now domains (pendingGrants s)).

(** The domains a pass started in [w] finds permitted, those it keeps active,
    the rules it compiles, and the identifiers it asks to remove.  The pass
    reads the clock twice: at [ticks w] in [syncRules] and at [S (ticks w)] in
    [reconcileDomains]. *)
Definition passPermitted (env : Env) (w : World) : list string :=
  filter (fun d => permitted env (clock env (S (ticks w))) (pendingGrants (storage w)) d = true)
         (blockedDomains (storage w)).

Definition passActive (env : Env) (w : World) : list string :=
  activeDomains (clock env (ticks w)) (storage w) (passPermitted env w).

Definition desiredRules (env : Env) (w : World) : list Rule :=
  compileRules (passActive env w).

Definition ourIds (w : World) : list Z :=
  id <$> filter (fun r => inOurRange r = true) (dynamicRules w).

Definition noteUpdate (u : list Z * list Rule) : World -> World :=
  withTrace (fun t => mkTrace (permissionQueries t) (ruleUpdates t ++ [u]) (passes t)).

(** One more pass counted in the trace. *)
Definition passed (w : World) : World :=
  withTrace (fun t => mkTrace (permissionQueries t) (ruleUpdates t) (S (passes t))) w.

(** The installed rules that are not this worker's. *)
Definition foreign (w : World) : list Rule :=
  filter (fun r => inOurRange r = false) (dynamicRules w).

(** The two passes of a run of [syncRules] twice in a row, from [w], read the
    clock at [ticks w], [ticks w + 1] (first pass) and [ticks w + 2],
    [ticks w + 3] (second pass).  No pause and no pending grant of a declared
    domain runs out in between when every stored timestamp is on the same
    side of both readings that are compared with it. *)
Definition noExpiryBetweenPasses (env : Env) (w : World) : Prop :=
  let t := ticks w in
  let s := storage w in
  live (clock env t) (pausedUntilTs s) = live (clock env (S (S t))) (pausedUntilTs s) /\
  (forall d, d ∈ blockedDomains s ->
     liveEntry (clock env t) (pausedDomains s !! d)
     = liveEntry (clock env (S (S t))) (pausedDomains s !! d)) /\
  (forall d, d ∈ blockedDomains s ->
     liveEntry (clock env (S t)) (pendingGrants s !! d)
     = liveEntry (clock env (S (S (S t)))) (pendingGrants s !! d)).

(** The blocklist as the popup stores it: sorted, without duplicates. *)
Definition sortedUnique (l : list string) : Prop := Sorted JsString.le l /\ NoDup l.

(** Every declared domain is permitted at the scan of the pass started in [w]. *)
Definition noneDenied (env : Env) (w : World) : Prop :=
  forall d, d ∈ blockedDomains (storage w) ->
    permitted env (clock env (S (ticks w))) (pendingGrants (storage w)) d = true.

(** The alarms once the loop of the [onStartup] listener has gone through
    [entries]. *)
Definition arm (now : N) (a : gmap string Z) (entries : list (string * Z)) : gmap string Z :=
  foldl (fun a entry =>
           if live now entry.2 then <["fg:resume:" +:+ entry.1 := entry.2]> a else a)
        a entries.

(** The commands the router knows. *)
Definition knownCommands : list string :=
  ["syncRules"; "pauseForMinutes"; "resumeNow"; "pauseDomain"; "resumeDomain";
   "markPending"; "markGranted"].

(** A handler answers in the shape of the command surface. *)
Definition answersInShape (m : Run Response) : Prop :=
  forall w w' r, m w = (w', Ok r) -> r = success \/ exists message, r = failure message.

(** An operation ends: its result is a value or an exception. *)
Definition ends {A} (m : Run A) : Prop := forall w, (m w).2 <> OutOfFuel.

(** An operation keeps the rules of others when each of them is still
    installed afterwards, in the same order and ahead of anything new. *)
Definition keepsForeign {A} (m : Run A) : Prop :=
  forall w, foreign w `prefix_of` foreign (m w).1.

(** ** The coordinator under interleaving

    Between two suspension points of a pass any number of other handlers may
    call [syncRules].  Only the flags matter here; the counters record what
    happened and take no part in the decisions. *)

Module Coordinator.

Record State := mkState {
  flags : Flags;
  started : nat;      (* passes begun *)
  finished : nat;     (* passes whose [finally] block has run *)
  waiting : nat       (* requests received since the latest pass began *)
}.

Inductive Event : Type :=
| Request           (* a handler calls [syncRules()] *)
| PassEnds.         (* the pass in flight leaves its [try] block *)

Definition initial : State := mkState (mkFlags false false) 0 0 0.

Definition inFlight (s : State) : nat := (started s - finished s)%nat.

(** Lines 195-199 of a call. *)
Definition request (s : State) : State :=
  if (enter (flags s)).2
  then mkState (enter (flags s)).1 (S (started s)) (finished s) 0
  else mkState (enter (flags s)).1 (started s) (finished s) (S (waiting s)).

(** Lines 229-235: the [finally] block, and with it the first lines of the
    nested call, which run before anything else can. *)
Definition passEnds (s : State) : State :=
  let s1 := mkState (leave (flags s)).1 (started s) (S (finished s)) (waiting s) in
  if (leave (flags s)).2 then request s1 else s1.

Definition step (s : State) (e : Event) : option State :=
  match e with
  | Request => Some (request s)
  | PassEnds => if (finished s <? started s)%nat then Some (passEnds s) else None
  end.

Fixpoint run (s : State) (evs : list Event) : option State :=
  match evs with
  | [] => Some s
  | e :: rest =>
      match step s e with
      | Some s1 => run s1 rest
      | None => None
      end
  end.


(** What holds between two events, whatever happened before. *)
Definition consistent (s : State) : Prop :=
  (finished s <= started s <= S (finished s))%nat /\
  (_syncing (flags s) = true <-> started s = S (finished s)) /\
  (_needsResync (flags s) = true -> _syncing (flags s) = true) /\
  (_needsResync (flags s) = true <-> (0 < waiting s)%nat).

End Coordinator.

(** ** Notions used in the further properties *)

(** Some rule of the list is the one compiled for [d]: its filter is
    [||d^]. *)
Definition blocks (rules : list Rule) (d : string) : Prop :=
  exists rule, rule ∈ rules /\ urlFilter rule = "||" +:+ d +:+ "^".

(** The names of the snooze alarms. *)
Definition isResumeAlarm (name : string) : bool :=
  String.eqb name "fg:resumeAll" || String.prefix "fg:resume:" name.

(** The alarms once the loop of [resumeAllNow] has gone through [names]. *)
Definition disarm (a : gmap string Z) (names : list string) : gmap string Z :=
  foldl (fun a name => if String.prefix "fg:resume:" name then delete name a else a) a names.

(** The calls of [syncRules] among the events of the coordinator. *)
Fixpoint requests (evs : list Coordinator.Event) : nat :=
  match evs with
  | [] => 0
  | Coordinator.Request :: rest => S (requests rest)
  | Coordinator.PassEnds :: rest => requests rest
  end.

(** ** The debounce timer

    [scheduleSync] (lines 399-405) clears the timer it armed before and arms
    a new one; the callback of the timer forgets the timer and calls
    [syncRules].  The browser runs the callback of an armed timer once, not
    before the timer is due; how long after is left open. *)

Module Debounce.

Record State := mkState {
  timer : option N;       (* [_debounceTimer]: when the armed timer is due *)
  synced : list N         (* when the callback called [syncRules] *)
}.

Inductive Event : Type :=
| Schedule (now : N)      (* a listener calls [scheduleSync()] at [now] *)
| Fires (now : N).        (* the browser runs the callback at [now] *)

Definition initial : State := mkState None [].

(** [clearTimeout(_debounceTimer); _debounceTimer = setTimeout(..., ms)] *)
Definition scheduleSync (now ms : N) (s : State) : State :=
  mkState (Some (now + ms)%N) (synced s).

(** [_debounceTimer = null; syncRules()] *)
Definition callback (now : N) (s : State) : State :=
  mkState None (synced s ++ [now]).

Definition step (s : State) (e : Event) : option State :=
  match e with
  | Schedule now => Some (scheduleSync now 120 s)
  | Fires now =>
      match timer s with
      | Some due => if (due <=? now)%N then Some (callback now s) else None
      | None => None
      end
  end.

Fixpoint run (s : State) (evs : list Event) : option State :=
  match evs with
  | [] => Some s
  | e :: rest =>
      match step s e with
      | Some s1 => run s1 rest
      | None => None
      end
  end.

End Debounce.

(** ** Regular expressions, as far as the popup uses them

    [RegExp.prototype.test] on an expression anchored at both ends, decided
    by derivatives. *)

Module Regex.

Inductive re : Type :=
| Void                           (* matches nothing *)
| Eps                            (* the empty string *)
| Class (p : ascii -> bool)      (* one code unit of a class *)
| Seq (a b : re)
| Alt (a b : re)
| Star (a : re).

(** [a?] *)
Definition Opt (a : re) : re := Alt a Eps.

(** [a{0,n}] *)
Fixpoint Upto (n : nat) (a : re) : re :=
  match n with
  | O => Eps
  | S n' => Opt (Seq a (Upto n' a))
  end.

Fixpoint nullable (r : re) : bool :=
  match r with
  | Void => false
  | Eps => true
  | Class _ => false
  | Seq a b => nullable a && nullable b
  | Alt a b => nullable a || nullable b
  | Star _ => true
  end.

Fixpoint deriv (c : ascii) (r : re) : re :=
  match r with
  | Void | Eps => Void
  | Class p => if p c then Eps else Void
  | Seq a b =>
      if nullable a then Alt (Seq (deriv c a) b) (deriv c b) else Seq (deriv c a) b
  | Alt a b => Alt (deriv c a) (deriv c b)
  | Star a => Seq (deriv c a) (Star a)
  end.

(** [/^r$/.test(s)] *)
Fixpoint test (r : re) (s : string) : bool :=
  match s with
  | EmptyString => nullable r
  | String c rest => test (deriv c r) rest
  end.

(** No string is matched: a sufficient syntactic condition. *)
Fixpoint dead (r : re) : bool :=
  match r with
  | Void => true
  | Eps | Class _ | Star _ => false
  | Seq a b => dead a || dead b
  | Alt a b => dead a && dead b
  end.

(** Every class of the expression lies within [P]. *)
Fixpoint within (P : ascii -> bool) (r : re) : Prop :=
  match r with
  | Void | Eps => True
  | Class p => forall c, p c = true -> P c = true
  | Seq a b | Alt a b => within P a /\ within P b
  | Star a => within P a
  end.

End Regex.

(** ** The popup: what it validates and what it asks permission for *)

Module Popup.

(** [[a-zA-Z0-9]] and [[a-zA-Z0-9-]] *)
Definition alnum (c : ascii) : bool :=
  JsString.isUpperAZ c || JsString.isLowerAZ c || JsString.isDigit c.

Definition alnumHyphen (c : ascii) : bool := alnum c || Ascii.eqb c "-".

Definition dot (c : ascii) : bool := Ascii.eqb c ".".

(** [[a-zA-Z0-9]([a-zA-Z0-9-]{0,61}[a-zA-Z0-9])?] *)
Definition label : Regex.re :=
  Regex.Seq (Regex.Class alnum)
    (Regex.Opt (Regex.Seq (Regex.Upto 61 (Regex.Class alnumHyphen)) (Regex.Class alnum))).

(** [/^label(\.label)*$/] *)
Definition domainRegex : Regex.re :=
  Regex.Seq label (Regex.Star (Regex.Seq (Regex.Class dot) label)).

(** [s] without the prefix [p], compared without regard to case; [p] is in
    lower case. *)
Fixpoint dropPrefix (p s : string) : option string :=
  match p, s with
  | EmptyString, _ => Some s
  | String a p', String b s' =>
      if Ascii.eqb a (JsString.lowerUnit b) then dropPrefix p' s' else None
  | String _ _, EmptyString => None
  end.

(** [domain.replace(/^(https?:\/\/)?(www\.)?/i, '')] *)
Definition cleanDomain (domain : string) : string :=
  JsString.stripWww
    (match dropPrefix "https://" domain with
     | Some rest => rest
     | None =>
         match dropPrefix "http://" domain with
         | Some rest => rest
         | None => domain
         end
     end).

Definition isValidDomain (domain : string) : bool :=
  if String.eqb domain "" || (253 <? String.length domain)%nat then false
  else Regex.test domainRegex (cleanDomain domain).

(** The origins [requestOriginPermission] asks the user to grant. *)
Definition origins (domain : string) : list string :=
  [ "https://" +:+ domain +:+ "/*";
    "http://" +:+ domain +:+ "/*";
    "https://*." +:+ domain +:+ "/*";
    "http://*." +:+ domain +:+ "/*" ].

(** What is left of a valid domain once it is cleaned: letters, digits,
    hyphens and dots. *)
Definition domainChar (c : ascii) : bool := alnumHyphen c || dot c.

End Popup.

(** ** Sample states, used where a statement is tried on a concrete input *)

Definition pausedEnv : Env :=
  mkEnv (fun _ => 1000%N) (fun _ => Granted) (fun _ _ _ => None).

Definition pausedWorld : World :=
  mkWorld (mkStorage ["a.com"; "b.com"] 2000 ∅ ∅)
          [domainRule 100000 "a.com"; mkRule 7 1 "block" "" "||ads.example^" ["image"]]
          ∅ (mkFlags false false) 0 (mkTrace [] [] 0).

(** Access to a.com and b.com is granted, to nothing else; the clock stands
    still. *)
Definition revokedEnv : Env :=
  mkEnv (fun _ => 1000%N)
        (fun q => if bool_decide (q ∈ ["https://*.a.com/*"; "https://*.b.com/*"])
                  then Granted else NotGranted)
        (fun _ _ _ => None).

Definition unsortedWorld : World :=
  mkWorld (mkStorage ["b.com"; "a.com"; "x.com"] 0 ∅ ∅) [] ∅
          (mkFlags false false) 0 (mkTrace [] [] 0).

(** Access to everything; the clock advances by one millisecond per reading,
    and the global pause ends between the two passes. *)
Definition tickingEnv : Env :=
  mkEnv (fun k => 1000 + N.of_nat k)%N (fun _ => Granted) (fun _ _ _ => None).

Definition expiringWorld : World :=
  mkWorld (mkStorage ["a.com"] 1001 ∅ ∅) [] ∅
          (mkFlags false false) 0 (mkTrace [] [] 0).

Definition settledWorld : World :=
  mkWorld (mkStorage ["a.com"; "b.com"; "x.com"] 0 ∅ ∅) [] ∅
          (mkFlags false false) 0 (mkTrace [] [] 0).

(** A worker that has just started: a global pause and the pause of
    d.example still running, the pause of old.example over. *)
Definition restartEnv : Env :=
  mkEnv (fun _ => 1000%N) (fun _ => Granted) (fun _ _ _ => None).

Definition restartWorld : World :=
  mkWorld (mkStorage ["d.example"; "old.example"] 5000
                     (<["d.example" := 301000]> (<["old.example" := 900]> ∅)) ∅)
          [] ∅ (mkFlags false false) 0 (mkTrace [] [] 0).

(* end of sample states *)

(** * Strings: encoding and the way back *)

Module JsStringFacts.
Import JsString.

Ltac each_char c := destruct c as [[] [] [] [] [] [] [] []].

Lemma encodeUnit_decode (c : ascii) (rest : string) :
  decodeURIComponent (encodeUnit c rest) = String c <$> decodeURIComponent rest.
Proof. each_char c; reflexivity. Qed.

Lemma decode_encode (s : string) :
  decodeURIComponent (encodeURIComponent s) = Some s.
Proof.
  induction s as [|c s IH]; [reflexivity|].
  simpl. rewrite encodeUnit_decode, IH. reflexivity.
Qed.

Lemma encodeUnit_safe (c : ascii) (rest : string) :
  allChars uriSafe (encodeUnit c rest) = allChars uriSafe rest.
Proof. each_char c; reflexivity. Qed.

Lemma encode_safe (s : string) : allChars uriSafe (encodeURIComponent s) = true.
Proof.
  induction s as [|c s IH]; [reflexivity|].
  simpl. rewrite encodeUnit_safe. exact IH.
Qed.

Lemma encodeUnit_head (c : ascii) (rest : string) :
  exists x tail, encodeUnit c rest = String x tail /\ Ascii.eqb x "&" = false.
Proof. each_char c; eexists _, _; (split; [reflexivity|reflexivity]). Qed.

Lemma untilAmp_safe (s : string) : allChars uriSafe s = true -> untilAmp s = s.
Proof.
  induction s as [|c s IH]; [reflexivity|].
  simpl. intros [Hc Hs]%andb_prop.
  destruct (Ascii.eqb_spec c "&") as [->|_]; [discriminate Hc|].
  rewrite IH by exact Hs. reflexivity.
Qed.

Lemma matchParam_fragment (e : string) :
  e <> EmptyString -> allChars uriSafe e = true ->
  matchParam ("#d=" +:+ e) = Some e.
Proof.
  intros Hne Hsafe. destruct e as [|x rest]; [congruence|].
  change (matchParam ("#d=" +:+ String x rest))
    with (match matchParamHere (String "#" (String "d" (String "=" (String x rest)))) with
          | Some m => Some m
          | None => matchParam (String "d" (String "=" (String x rest)))
          end).
  unfold matchParamHere.
  assert (Hx : Ascii.eqb x "&" = false).
  { simpl in Hsafe. apply andb_prop in Hsafe as [Hc _].
    destruct (Ascii.eqb_spec x "&") as [->|_]; [discriminate Hc|reflexivity]. }
  rewrite Hx. cbn [Ascii.eqb orb andb negb].
  change (Ascii.eqb "#" "#") with true. change (Ascii.eqb "d" "d") with true.
  change (Ascii.eqb "=" "=") with true. cbn [orb andb].
  rewrite untilAmp_safe by exact Hsafe. reflexivity.
Qed.

Lemma isW_lower (c : ascii) : isW c = true -> lowerUnit c = c -> c = "w"%char.
Proof. each_char c; intros Hw Hl; first [discriminate Hw | discriminate Hl | reflexivity]. Qed.

Lemma stripWww_lowercase (s : string) :
  toLowerCase s = s -> String.prefix "www." s = false -> stripWww s = s.
Proof.
  intros Hl Hp.
  destruct s as [|a [|b [|c [|d rest]]]]; try reflexivity.
  unfold stripWww.
  destruct (isW a && isW b && isW c && Ascii.eqb d ".") eqn:E; [|reflexivity].
  exfalso.
  apply andb_prop in E as [E Hd]. apply andb_prop in E as [E Hc].
  apply andb_prop in E as [Ha Hb].
  simpl in Hl. injection Hl as Hla Hlb Hlc _ _.
  apply isW_lower in Ha, Hb, Hc; try assumption. subst a b c.
  apply Ascii.eqb_eq in Hd. subst d.
  simpl in Hp. destruct rest; discriminate Hp.
Qed.

End JsStringFacts.

Lemma locationHash_of_rule (ruleId : Z) (d : string) :
  BlockedPage.locationHash (extensionPath (domainRule ruleId d))
  = "#d=" +:+ JsString.encodeURIComponent d.
Proof. reflexivity. Qed.

Lemma encode_nonempty (d : string) :
  d <> EmptyString -> JsString.encodeURIComponent d <> EmptyString.
Proof.
  destruct d as [|c rest]; [congruence|]. intros _. simpl.
  destruct (JsStringFacts.encodeUnit_head c (JsString.encodeURIComponent rest))
    as (x & tail & -> & _).
  discriminate.
Qed.

(** C10.  A rule's redirect target, read back by the blocked page, gives the
    domain the rule was compiled for: for a non-empty domain that is its own
    lower-case form and does not begin with [www.], [getDomainFromHash] on the
    fragment of [/blocked.html#d=<encoded domain>] returns exactly that
    domain. *)
Theorem blocked_page_roundtrip (ruleId : Z) (d : string) :
  d <> EmptyString ->
  JsString.toLowerCase d = d ->
  String.prefix "www." d = false ->
  extensionPath (domainRule ruleId d) = "/blocked.html#d=" +:+ JsString.encodeURIComponent d /\
  BlockedPage.getDomainFromHash
    (BlockedPage.locationHash (extensionPath (domainRule ruleId d))) = Some d.
Proof.
  intros Hne Hlow Hwww. split; [reflexivity|].
  rewrite locationHash_of_rule. unfold BlockedPage.getDomainFromHash.
  rewrite JsStringFacts.matchParam_fragment
    by (auto using encode_nonempty, JsStringFacts.encode_safe).
  rewrite JsStringFacts.decode_encode.
  rewrite JsStringFacts.stripWww_lowercase by assumption.
  rewrite Hlow. reflexivity.
Qed.

Lemma blocked_page_roundtrip_witness :
  BlockedPage.getDomainFromHash
    (BlockedPage.locationHash (extensionPath (domainRule 100000 "news.example.com")))
  = Some "news.example.com".
Proof.
  apply (blocked_page_roundtrip 100000 "news.example.com");
    [discriminate | reflexivity | reflexivity].
Defined.

(** * Rule compilation *)

Lemma compileRules_lookup (active : list string) (i : nat) :
  compileRules active !! i
  = (fun d => domainRule (RULE_BASE + Z.of_nat i) d) <$> active !! i.
Proof. unfold compileRules. rewrite list_lookup_imap. reflexivity. Qed.

Lemma compileRules_length (active : list string) :
  length (compileRules active) = length active.
Proof. unfold compileRules. apply length_imap. Qed.

Lemma compileRules_ids_distinct (active : list string) :
  NoDup (id <$> compileRules active).
Proof.
  apply NoDup_alt. intros i j x Hi Hj.
  rewrite list_lookup_fmap, compileRules_lookup in Hi, Hj.
  destruct (active !! i); [|discriminate]. destruct (active !! j); [|discriminate].
  simpl in Hi, Hj. injection Hi as <-. injection Hj as Hj. lia.
Qed.

(** C4, as the code has it.  [n] active domains compile to [n] rules; the
    rule at position [i] is [domainRule (RULE_BASE + i)] of the domain at
    position [i]: a redirect to [/blocked.html#d=] followed by the encoded
    domain (made of unreserved characters and escapes only), filtered by
    [||domain^] on [main_frame] alone.  Within one pass the identifiers are
    pairwise distinct.  An identifier is a function of the position in the
    list and of nothing else. *)
Theorem compiled_rules (active : list string) :
  length (compileRules active) = length active /\
  (forall i d, active !! i = Some d ->
      compileRules active !! i = Some (domainRule (RULE_BASE + Z.of_nat i) d)) /\
  (forall ruleId d,
      id (domainRule ruleId d) = ruleId /\
      action_type (domainRule ruleId d) = "redirect" /\
      extensionPath (domainRule ruleId d)
        = "/blocked.html#d=" +:+ JsString.encodeURIComponent d /\
      JsString.allChars JsString.uriSafe (JsString.encodeURIComponent d) = true /\
      urlFilter (domainRule ruleId d) = "||" +:+ d +:+ "^" /\
      resourceTypes (domainRule ruleId d) = ["main_frame"]) /\
  NoDup (id <$> compileRules active).
Proof.
  split; [apply compileRules_length|]. split.
  { intros i d Hd. rewrite compileRules_lookup, Hd. reflexivity. }
  split; [|apply compileRules_ids_distinct].
  intros ruleId d. repeat split. apply JsStringFacts.encode_safe.
Qed.

(** C4, as stated, fails: a pass over [a.com; b.com] gives identifier 100000
    to [a.com], and a later pass over [b.com] alone gives the same identifier
    to [b.com]. *)
Lemma identifier_reused_for_another_domain :
  exists r1 r2,
    compileRules ["a.com"; "b.com"] !! 0%nat = Some r1 /\
    compileRules ["b.com"] !! 0%nat = Some r2 /\
    id r1 = id r2 /\
    urlFilter r1 = "||a.com^" /\ urlFilter r2 = "||b.com^".
Proof. eexists _, _. repeat split. Qed.

(** * The permission check *)

Ltac run_unfold :=
  unfold mbind, Run_bind, bind, ret, throw, tryCatch, tryFinally, modify, get in *.

Lemma noteQueries_nil (w : World) : noteQueries [] w = w.
Proof.
  destruct w as [s r a f k [q u p]]. unfold noteQueries, withTrace. simpl.
  rewrite app_nil_r. reflexivity.
Qed.

Lemma noteQueries_app (a b : list string) (w : World) :
  noteQueries b (noteQueries a w) = noteQueries (a ++ b) w.
Proof.
  destruct w as [s r al f k [q u p]]. unfold noteQueries, withTrace. simpl.
  rewrite app_assoc. reflexivity.
Qed.

Lemma checkEach_run (env : Env) (qs : list string) (w : World) :
  checkEach env qs w
  = (noteQueries (askedUntilMatch env qs) w, Ok (existsb (matches env) qs)).
Proof.
  revert w. induction qs as [|q rest IH]; intros w.
  - simpl. rewrite noteQueries_nil. reflexivity.
  - simpl. run_unfold. unfold permissions_contains, matches.
    destruct (contains env q); simpl.
    + reflexivity.
    + rewrite IH, noteQueries_app. reflexivity.
    + rewrite IH, noteQueries_app. reflexivity.
Qed.

(** C6.  A value that is missing, not a string or longer than 253 code units
    is denied and the world is left as it was (no query is issued).  For any
    other domain the patterns of [checks] are asked in order, the unrestricted
    pattern first, up to and including the first that matches; the answer is
    whether one of them matches; a failing query counts as no match, the
    patterns after it are still asked, and the check itself never throws. *)
Theorem hasHostAccess_contract (env : Env) :
  (forall v w, wellFormed v = false -> hasHostAccess env v w = (w, Ok false)) /\
  (forall s w, wellFormed (JStr s) = true ->
      hasHostAccess env (JStr s) w
      = (noteQueries (askedUntilMatch env (checks s)) w,
         Ok (existsb (matches env) (checks s)))) /\
  (forall s, checks s
      = [ "*://*/*"; "https://*." +:+ s +:+ "/*"; "http://*." +:+ s +:+ "/*";
          "https://" +:+ s +:+ "/*"; "http://" +:+ s +:+ "/*" ]) /\
  (forall q rest, contains env q <> Granted ->
      askedUntilMatch env (q :: rest) = q :: askedUntilMatch env rest /\
      existsb (matches env) (q :: rest) = existsb (matches env) rest) /\
  (forall q rest, contains env q = Granted ->
      askedUntilMatch env (q :: rest) = [q] /\
      existsb (matches env) (q :: rest) = true).
Proof.
  split; [|split; [|split; [|split]]].
  - intros v w Hv. destruct v; try reflexivity.
    unfold hasHostAccess, wellFormed in *. cbn [truthy].
    destruct (String.eqb s ""); cbn [negb orb andb] in *; [reflexivity|].
    destruct (Nat.leb_spec (String.length s) 253) as [Hle|Hgt]; [discriminate Hv|].
    destruct (Nat.ltb_spec 253 (String.length s)); [reflexivity|lia].
  - intros s w Hs. unfold hasHostAccess, wellFormed in *. cbn [truthy].
    destruct (String.eqb s ""); cbn [negb orb andb] in *; [discriminate Hs|].
    destruct (Nat.ltb_spec 253 (String.length s)) as [Hgt|Hle].
    + apply Nat.leb_le in Hs. lia.
    + apply checkEach_run.
  - reflexivity.
  - intros q rest Hq. simpl. unfold matches. destruct (contains env q); [congruence| |]; auto.
  - intros q rest Hq. simpl. unfold matches. rewrite Hq. auto.
Qed.

(** * Order, sorting and deduplication *)

Lemma ascii_compare_Lt (a b : ascii) :
  Ascii.compare a b = Lt <-> (N_of_ascii a < N_of_ascii b)%N.
Proof. unfold Ascii.compare. apply N.compare_lt_iff. Qed.

Lemma ascii_compare_Eq (a b : ascii) : Ascii.compare a b = Eq <-> a = b.
Proof.
  split; [apply Ascii.compare_eq_iff|].
  intros ->. unfold Ascii.compare. apply N.compare_refl.
Qed.

Lemma string_compare_refl (s : string) : String.compare s s = Eq.
Proof.
  induction s as [|c s IH]; [reflexivity|]. simpl.
  rewrite (proj2 (ascii_compare_Eq c c) eq_refl). exact IH.
Qed.

#[global] Instance JsString_le_total : Total JsString.le.
Proof.
  intros a b. unfold JsString.le. rewrite (String.compare_antisym b a).
  destruct (String.compare a b); simpl; [left|left|right]; discriminate.
Qed.

#[global] Instance JsString_le_antisym : AntiSymm (=) JsString.le.
Proof.
  intros a b Hab Hba. unfold JsString.le in *.
  rewrite (String.compare_antisym b a) in Hba.
  destruct (String.compare a b) eqn:E; simpl in *; try congruence.
  apply String.compare_eq_iff. exact E.
Qed.

#[global] Instance JsString_le_trans : Transitive JsString.le.
Proof.
  intros a. unfold JsString.le.
  induction a as [|x a IH]; intros b c Hab Hbc.
  - destruct c; simpl; discriminate.
  - destruct b as [|y b]; [simpl in Hab; congruence|].
    destruct c as [|z c]; [simpl in Hbc; congruence|].
    simpl in *.
    destruct (Ascii.compare x y) eqn:Exy; try congruence;
      destruct (Ascii.compare y z) eqn:Eyz; try congruence.
    + apply Ascii.compare_eq_iff in Exy. apply Ascii.compare_eq_iff in Eyz. subst y z.
      rewrite (proj2 (ascii_compare_Eq x x) eq_refl). eauto.
    + apply Ascii.compare_eq_iff in Exy. subst y. rewrite Eyz. discriminate.
    + apply Ascii.compare_eq_iff in Eyz. subst z. rewrite Exy. discriminate.
    + apply (proj1 (ascii_compare_Lt _ _)) in Exy.
      apply (proj1 (ascii_compare_Lt _ _)) in Eyz.
      rewrite (proj2 (ascii_compare_Lt x z)) by lia. discriminate.
Qed.

Lemma sort_sorted (l : list string) : Sorted JsString.le (sort l).
Proof. apply Sorted_merge_sort. apply _. Qed.

Lemma sort_perm (l : list string) : sort l ≡ₚ l.
Proof. apply merge_sort_Permutation. Qed.

Lemma sort_elem (l : list string) (x : string) : x ∈ sort l <-> x ∈ l.
Proof. rewrite (sort_perm l). reflexivity. Qed.

Lemma sort_fixed (l : list string) : Sorted JsString.le l -> sort l = l.
Proof.
  intros Hl. apply (Sorted_unique JsString.le); auto using sort_sorted, sort_perm.
Qed.

Lemma setAdd_fold_elem (l seen : list string) (x : string) :
  x ∈ foldl setAdd seen l <-> x ∈ seen \/ x ∈ l.
Proof.
  revert seen. induction l as [|y l IH]; intros seen; simpl.
  - rewrite elem_of_nil. tauto.
  - rewrite IH. unfold setAdd. rewrite elem_of_cons.
    destruct (decide (y ∈ seen)) as [Hy|Hy].
    + split; [tauto|]. intros [H|[->|H]]; tauto.
    + rewrite elem_of_app, list_elem_of_singleton. tauto.
Qed.

Lemma setAdd_fold_NoDup (l seen : list string) :
  NoDup seen -> NoDup (foldl setAdd seen l).
Proof.
  revert seen. induction l as [|y l IH]; intros seen Hs; simpl; [exact Hs|].
  apply IH. unfold setAdd. destruct (decide (y ∈ seen)) as [Hy|Hy]; [exact Hs|].
  apply NoDup_app. split; [exact Hs|]. split.
  - intros x Hx ->%list_elem_of_singleton. contradiction.
  - apply NoDup_singleton.
Qed.

Lemma setAdd_fold_fixed (l seen : list string) :
  NoDup (seen ++ l) -> foldl setAdd seen l = seen ++ l.
Proof.
  revert seen. induction l as [|y l IH]; intros seen Hs; simpl.
  - rewrite app_nil_r. reflexivity.
  - unfold setAdd. destruct (decide (y ∈ seen)) as [Hy|Hy].
    + apply NoDup_app in Hs as (_ & Hd & _). exfalso. apply (Hd y Hy). left.
    + rewrite IH; rewrite <- app_assoc; [reflexivity|exact Hs].
Qed.

Lemma arrayFromSet_elem (l : list string) (x : string) : x ∈ arrayFromSet l <-> x ∈ l.
Proof. unfold arrayFromSet. rewrite setAdd_fold_elem, elem_of_nil. tauto. Qed.

Lemma arrayFromSet_NoDup (l : list string) : NoDup (arrayFromSet l).
Proof. apply setAdd_fold_NoDup. constructor. Qed.

Lemma arrayFromSet_fixed (l : list string) : NoDup l -> arrayFromSet l = l.
Proof. intros Hl. unfold arrayFromSet. rewrite setAdd_fold_fixed; auto. Qed.

Lemma uniqSorted_elem (l : list string) (x : string) :
  x ∈ sort (arrayFromSet l) <-> x ∈ l.
Proof. rewrite sort_elem. apply arrayFromSet_elem. Qed.

Lemma uniqSorted_NoDup (l : list string) : NoDup (sort (arrayFromSet l)).
Proof. rewrite (sort_perm _). apply arrayFromSet_NoDup. Qed.

Lemma uniqSorted_fixed (l : list string) :
  Sorted JsString.le l -> NoDup l -> sort (arrayFromSet l) = l.
Proof. intros Hs Hn. rewrite arrayFromSet_fixed by exact Hn. apply sort_fixed, Hs. Qed.

(** * The reconciler *)

Lemma live_lapsed (now : N) (ts : Z) : live now ts = true -> lapsed now ts = false.
Proof. unfold live, lapsed. destruct (ts =? 0); simpl; [discriminate|]. lia. Qed.

Lemma lapsed_not_live_later (now later : N) (ts : Z) :
  (now <= later)%N -> lapsed now ts = true -> live later ts = false.
Proof. unfold live, lapsed. destruct (ts =? 0); simpl; [discriminate|]. lia. Qed.

Lemma liveEntry_delete (now later : N) (p : gmap string Z) (d d' : string) :
  (now <= later)%N -> lapsedEntry now (p !! d') = true ->
  liveEntry later (delete d' p !! d) = liveEntry later (p !! d).
Proof.
  intros Hle Hl. destruct (decide (d' = d)) as [->|Hne].
  - rewrite lookup_delete_eq. destruct (p !! d) as [ts|]; [|reflexivity].
    simpl in *. symmetry. exact (lapsed_not_live_later now later ts Hle Hl).
  - rewrite lookup_delete_ne by exact Hne. reflexivity.
Qed.

Lemma liveEntry_sweep (now later : N) (ds : list string) (p : gmap string Z) (d : string) :
  (now <= later)%N ->
  liveEntry later (sweep now ds p !! d) = liveEntry later (p !! d).
Proof.
  intros Hle. unfold sweep. revert p.
  induction ds as [|x ds IH]; intros p; simpl; [reflexivity|].
  rewrite IH. destruct (lapsedEntry now (p !! x)) eqn:E; [|reflexivity].
  apply (liveEntry_delete now later); assumption.
Qed.

Lemma hasHostAccess_run (env : Env) (d : string) (w : World) :
  hasHostAccess env (JStr d) w = (noteQueries (accessQueries env d) w, Ok (hasAccess env d)).
Proof.
  destruct (hasHostAccess_contract env) as (Hbad & Hgood & _).
  unfold accessQueries, hasAccess.
  destruct (wellFormed (JStr d)) eqn:E.
  - rewrite Hgood by exact E. reflexivity.
  - rewrite Hbad by exact E. rewrite noteQueries_nil. reflexivity.
Qed.

Lemma scanOne_run (env : Env) (now : N) (d : string) (st : Scan) (w : World) :
  exists qs, scanOne env now d st w = (noteQueries qs w, Ok (scanStep env now st d)).
Proof.
  unfold scanOne, scanStep, permitted, lapsedEntry. run_unfold.
  destruct (liveEntry now (pending st !! d)) eqn:Elive.
  - exists []. rewrite noteQueries_nil. cbn [orb]. cbn.
    destruct (pending st !! d) as [ts|]; [|reflexivity].
    destruct (lapsed now ts); reflexivity.
  - exists (accessQueries env d). rewrite hasHostAccess_run. cbn [orb].
    destruct (hasAccess env d); cbn;
      (destruct (pending st !! d) as [ts|]; [|reflexivity]);
      destruct (lapsed now ts); reflexivity.
Qed.

Lemma scanAll_run (env : Env) (now : N) (ds : list string) (st : Scan) (w : World) :
  exists qs, scanAll env now ds st w = (noteQueries qs w, Ok (foldl (scanStep env now) st ds)).
Proof.
  revert st w. induction ds as [|d ds IH]; intros st w.
  - exists []. rewrite noteQueries_nil. reflexivity.
  - destruct (scanOne_run env now d st w) as [q1 H1].
    destruct (IH (scanStep env now st d) (noteQueries q1 w)) as [q2 H2].
    exists (q1 ++ q2). cbn [scanAll foldl]. run_unfold.
    rewrite H1, H2, noteQueries_app. reflexivity.
Qed.

Lemma permitted_scanStep (env : Env) (now : N) (st : Scan) (d d' : string) :
  permitted env now (pending (scanStep env now st d)) d' = permitted env now (pending st) d'.
Proof.
  unfold scanStep, permitted.
  destruct (lapsedEntry now (pending st !! d)) eqn:E.
  - cbn [pending]. rewrite (liveEntry_delete now now) by (auto; lia). reflexivity.
  - destruct (liveEntry now (pending st !! d) || hasAccess env d); reflexivity.
Qed.

Lemma scanStep_fields (env : Env) (now : N) (st : Scan) (d : string) :
  allowed (scanStep env now st d)
    = allowed st ++ (if permitted env now (pending st) d then [d] else []) /\
  denied (scanStep env now st d)
    = denied st ++ (if permitted env now (pending st) d then [] else [d]) /\
  pending (scanStep env now st d)
    = (if lapsedEntry now (pending st !! d) then delete d (pending st) else pending st) /\
  pendingChanged (scanStep env now st d)
    = pendingChanged st || lapsedEntry now (pending st !! d).
Proof.
  unfold scanStep.
  destruct (permitted env now (pending st) d), (lapsedEntry now (pending st !! d));
    cbn; rewrite ?app_nil_r, ?orb_true_r, ?orb_false_r; auto.
Qed.

Lemma scan_fold (env : Env) (now : N) (ds : list string) (st : Scan) :
  let st' := foldl (scanStep env now) st ds in
  allowed st' = allowed st ++ filter (fun d => permitted env now (pending st) d = true) ds /\
  denied st' = denied st ++ filter (fun d => permitted env now (pending st) d = false) ds /\
  pending st' = sweep now ds (pending st) /\
  (pendingChanged st = true -> pendingChanged st' = true) /\
  (pendingChanged st' = false -> pending st' = pending st).
Proof.
  revert st. induction ds as [|d ds IH]; intros st; cbn zeta.
  - cbn. rewrite !app_nil_r. auto.
  - cbn [foldl]. specialize (IH (scanStep env now st d)). cbn zeta in IH.
    destruct IH as (Ha & Hd & Hp & Hm & Hc).
    destruct (scanStep_fields env now st d) as (Fa & Fd & Fp & Fc).
    assert (Hf : forall b, filter (fun x => permitted env now (pending (scanStep env now st d)) x = b) ds
                 = filter (fun x => permitted env now (pending st) x = b) ds).
    { intros b. apply list_filter_iff. intros x. rewrite permitted_scanStep. reflexivity. }
    rewrite Ha, Hd, !Hf, Fa, Fd. clear Ha Hd Hf.
    rewrite !filter_cons.
    split; [|split; [|split; [|split]]].
    + rewrite <- app_assoc. f_equal.
      destruct (permitted env now (pending st) d); [rewrite decide_True by done|rewrite decide_False by done]; reflexivity.
    + rewrite <- app_assoc. f_equal.
      destruct (permitted env now (pending st) d); [rewrite decide_False by done|rewrite decide_True by done]; reflexivity.
    + rewrite Hp, Fp. reflexivity.
    + intros Hch. apply Hm. rewrite Fc, Hch. reflexivity.
    + intros Hch. destruct (lapsedEntry now (pending st !! d)) eqn:El.
      * rewrite Hm in Hch; [discriminate Hch|]. rewrite Fc. apply orb_true_r.
      * rewrite Hc by exact Hch. rewrite Fp. reflexivity.
Qed.

Lemma denied_nil_iff (env : Env) (now : N) (p : gmap string Z) (ds : list string) :
  filter (fun d => permitted env now p d = false) ds = []
  <-> forallb (permitted env now p) ds = true.
Proof.
  induction ds as [|d ds IH]; [cbn; tauto|].
  rewrite filter_cons. cbn [forallb].
  destruct (permitted env now p d).
  - rewrite decide_False by done. rewrite IH. reflexivity.
  - rewrite decide_True by done. cbn. split; discriminate.
Qed.

(** What [reconcileDomains] does: the clock is read once, the queries of the
    scan are issued, storage becomes [reconcileStorage], and the value
    returned is the list of permitted domains in their original order. *)
Lemma reconcileDomains_run (env : Env) (domains : list string) (w : World) :
  let now := clock env (ticks w) in
  exists qs,
    reconcileDomains env domains w
    = (noteQueries qs (withStorage (reconcileStorage env now domains) (withTicks S w)),
       Ok (filter (fun d => permitted env now (pendingGrants (storage w)) d = true) domains)).
Proof.
  cbn zeta. unfold reconcileDomains. run_unfold. unfold Date_now, getPendingGrants, get.
  cbn [storage withTicks].
  destruct (scanAll_run env (clock env (ticks w)) domains
              (mkScan (pendingGrants (storage w)) false [] []) (withTicks S w)) as [qs Hs].
  exists qs. rewrite Hs. clear Hs.
  destruct (scan_fold env (clock env (ticks w)) domains
              (mkScan (pendingGrants (storage w)) false [] [])) as (Ha & Hd & Hp & _ & Hc).
  cbn [allowed denied pending pendingChanged app] in *.
  set (st' := foldl _ _ _) in *.
  rewrite Ha, Hd. clear Ha.
  assert (Hpend : (if pendingChanged st' then pending st' else pendingGrants (storage w))
                  = sweep (clock env (ticks w)) domains (pendingGrants (storage w))).
  { destruct (pendingChanged st'); [exact Hp|]. rewrite <- Hp. symmetry. auto. }
  unfold reconcileStorage, withStorage. cbn [storage withTicks pendingGrants].
  destruct (forallb (permitted env (clock env (ticks w)) (pendingGrants (storage w))) domains) eqn:Eall.
  - apply denied_nil_iff in Eall. rewrite Eall.
    destruct w as [[b u pd pg] r a f k t]. cbn in *.
    destruct (pendingChanged st'); cbn;
      unfold set_pendingGrants, modify, noteQueries, withStorage, withTrace; cbn;
      rewrite <- Hpend; reflexivity.
  - destruct (filter (fun d => permitted _ _ _ d = false) domains) eqn:Eden.
    { apply denied_nil_iff in Eden. congruence. }
    destruct w as [[b u pd pg] r a f k t]. cbn in *.
    destruct (pendingChanged st'); cbn;
      unfold set_pendingGrants, set_blockedDomains, modify, noteQueries, withStorage, withTrace; cbn;
      rewrite <- Hpend; reflexivity.
Qed.

Lemma forallb_permitted (env : Env) (now : N) (p : gmap string Z) (ds : list string) :
  forallb (permitted env now p) ds = true <-> forall d, d ∈ ds -> permitted env now p d = true.
Proof.
  rewrite forallb_forall. split; intros H d Hd; apply H.
  - apply list_elem_of_In, Hd.
  - apply list_elem_of_In, Hd.
Qed.

(** C3.  [reconcileDomains] returns, in their order, exactly the declared
    domains whose pending grant is still running at scan time or for which the
    permission check reports access.  When a declared domain is denied, the
    stored [blockedDomains] becomes the sorted, duplicate-free list of the
    allowed domains, so the denied domain is no longer in the stored list;
    when none is denied, the stored list is left alone. *)
Theorem reconcileDomains_contract (env : Env) (domains : list string) (w : World) :
  let now := clock env (ticks w) in
  let allow := fun d => liveEntry now (pendingGrants (storage w) !! d) || hasAccess env d in
  exists w',
    reconcileDomains env domains w = (w', Ok (filter (fun d => allow d = true) domains)) /\
    (forall d v, (hasHostAccess env (JStr d) v).2 = Ok (hasAccess env d)) /\
    ((exists d, d ∈ domains /\ allow d = false) ->
       blockedDomains (storage w')
         = sort (arrayFromSet (filter (fun d => allow d = true) domains)) /\
       Sorted JsString.le (blockedDomains (storage w')) /\
       NoDup (blockedDomains (storage w')) /\
       (forall d, d ∈ blockedDomains (storage w') <-> d ∈ domains /\ allow d = true)) /\
    ((forall d, d ∈ domains -> allow d = true) ->
       blockedDomains (storage w') = blockedDomains (storage w)).
Proof.
  cbn zeta. destruct (reconcileDomains_run env domains w) as [qs Hrun]. cbn zeta in Hrun.
  eexists. split; [exact Hrun|]. split.
  { intros d v. rewrite hasHostAccess_run. reflexivity. }
  destruct w as [[b u pd pg] r a f k t]. cbn.
  fold (permitted env (clock env k) pg).
  split.
  - intros (d & Hd & Hden).
    destruct (forallb (permitted env (clock env k) pg) domains) eqn:Eall.
    { rewrite forallb_permitted in Eall. specialize (Eall d Hd).
      unfold permitted in Eall. congruence. }
    split; [reflexivity|]. split; [apply sort_sorted|]. split; [apply uniqSorted_NoDup|].
    intros x. rewrite uniqSorted_elem, list_elem_of_filter. tauto.
  - intros Hall. apply forallb_permitted in Hall.
    rewrite Hall. reflexivity.
Qed.

(** * One pass *)

Lemma filter_agree {A} (P Q : A -> Prop) `{!forall x, Decision (P x)} `{!forall x, Decision (Q x)}
    (l : list A) :
  (forall x, x ∈ l -> P x <-> Q x) -> filter P l = filter Q l.
Proof.
  induction l as [|x l IH]; intros Hagree; [reflexivity|].
  rewrite !filter_cons.
  rewrite IH by (intros y Hy; apply Hagree; right; exact Hy).
  destruct (decide (P x)) as [Hp|Hp], (decide (Q x)) as [Hq|Hq]; try reflexivity.
  - exfalso. apply Hq, (Hagree x); [left|exact Hp].
  - exfalso. apply Hp, (Hagree x); [left|exact Hq].
Qed.

Lemma removed_are_ours (rules : list Rule) :
  filter (fun r => id r ∉ id <$> filter (fun r => inOurRange r = true) rules) rules
  = filter (fun r => inOurRange r = false) rules.
Proof.
  apply filter_agree. intros r Hr. split.
  - intros Hnot. destruct (inOurRange r) eqn:E; [|reflexivity].
    exfalso. apply Hnot. apply list_elem_of_fmap. exists r. split; [reflexivity|].
    apply list_elem_of_filter. auto.
  - intros Hout Hin. apply list_elem_of_fmap in Hin as (r' & Hid & Hr').
    apply list_elem_of_filter in Hr' as [Hrange _].
    unfold inOurRange in *. rewrite Hid in Hout. congruence.
Qed.

(** The [try] block of [syncRules], step by step: two clock readings, the
    reconciler's effect on storage, then one call of [updateDynamicRules]. *)
Lemma syncBody_run (env : Env) (w : World) :
  exists qs,
    let w1 := noteUpdate (ourIds w, desiredRules env w)
                (noteQueries qs
                   (withStorage (reconcileStorage env (clock env (S (ticks w)))
                                   (blockedDomains (storage w)))
                      (withTicks (fun k => S (S k)) w))) in
    syncBody env w
    = match rejects env (dynamicRules w) (ourIds w) (desiredRules env w) with
      | Some message => (w1, Throw message)
      | None => (withRules (fun _ => foreign w ++ desiredRules env w) w1, Ok tt)
      end.
Proof.
  unfold syncBody. run_unfold. unfold getState, Date_now, getDynamicRules, get.
  destruct (reconcileDomains_run env (blockedDomains (storage w)) (withTicks S w)) as [qs Hrec].
  cbn zeta in Hrec. exists qs. cbn zeta. rewrite Hrec. clear Hrec.
  unfold updateDynamicRules, desiredRules, passActive, passPermitted, ourIds, foreign.
  destruct w as [[b u pd pg] r a f k t]. cbn.
  destruct (rejects env r _ _); [reflexivity|].
  unfold withRules. cbn. rewrite removed_are_ours. reflexivity.
Qed.

Lemma syncBody_flags (env : Env) (w : World) : flags (syncBody env w).1 = flags w.
Proof.
  destruct (syncBody_run env w) as [qs H]. cbn zeta in H. rewrite H.
  destruct w as [st ru al fl ti tr]; destruct (rejects env _ _ _); reflexivity.
Qed.

Lemma syncBody_fuel (env : Env) (w : World) : (syncBody env w).2 <> OutOfFuel.
Proof.
  destruct (syncBody_run env w) as [qs H]. cbn zeta in H. rewrite H.
  destruct (rejects env _ _ _); discriminate.
Qed.

(** A call of [syncRules] while a pass is in flight only leaves a note. *)
Lemma syncRules_busy (env : Env) (n : nat) (w : World) :
  _syncing (flags w) = true ->
  syncRulesFrom env n w = (withFlags (fun _ => mkFlags true true) w, Ok tt).
Proof.
  intros Hs. destruct w as [st ru al [sy nr] ti tr]. cbn in Hs. subst sy.
  destruct n; reflexivity.
Qed.

(** A call of [syncRules] with the mutex free and no resync noted runs
    one pass and leaves the flags as they were, whatever the budget. *)
Lemma syncRules_idle (env : Env) (n : nat) (w : World) :
  flags w = mkFlags false false ->
  syncRulesFrom env n w
  = (withFlags (fun _ => mkFlags false false)
       (syncBody env (notePass (withFlags (fun _ => mkFlags true false) w)).1).1,
     (syncBody env (notePass (withFlags (fun _ => mkFlags true false) w)).1).2).
Proof.
  intros Hf.
  assert (Hbody := syncBody_flags env (notePass (withFlags (fun _ => mkFlags true false) w)).1).
  assert (Hfuel := syncBody_fuel env (notePass (withFlags (fun _ => mkFlags true false) w)).1).
  destruct n; cbn [syncRulesFrom]; run_unfold; unfold claimMutex, releaseMutex, enter, leave;
    rewrite Hf; cbn [_syncing _needsResync fst snd];
    destruct w as [s r a f k t]; cbn in *; subst f;
    destruct (syncBody env _) as [w1 res]; cbn in *;
    destruct w1 as [s1 r1 a1 f1 k1 t1]; cbn in *; subst f1; cbn;
    destruct res; try reflexivity; congruence.
Qed.

Lemma syncRulesFrom_any (env : Env) (n m : nat) (w : World) :
  syncRulesFrom env (S n) w = syncRulesFrom env (S m) w /\
  (syncRulesFrom env (S n) w).2 <> OutOfFuel.
Proof.
  destruct (_syncing (flags w)) eqn:Hs.
  { rewrite !syncRules_busy by exact Hs. split; [reflexivity|discriminate]. }
  cbn [syncRulesFrom]. run_unfold. unfold claimMutex, releaseMutex, enter, leave. rewrite Hs.
  cbn [fst snd]. unfold notePass, modify.
  set (w0 := withTrace _ (withFlags _ w)).
  assert (Hbody := syncBody_flags env w0). assert (Hfuel := syncBody_fuel env w0).
  destruct (syncBody env w0) as [w1 res]. cbn [fst snd] in *.
  assert (Hidle : flags (withFlags (fun _ => mkFlags false false) w1) = mkFlags false false).
  { destruct w1; reflexivity. }
  destruct (_needsResync (flags w1)) eqn:Hr.
  - rewrite (syncRules_idle env n _ Hidle), (syncRules_idle env m _ Hidle).
    set (w2 := (notePass _).1).
    assert (Hfuel2 := syncBody_fuel env w2).
    destruct (syncBody env w2) as [w3 res3]. cbn [fst snd] in *.
    destruct res3; [| |congruence]; (split; [reflexivity|]); destruct res; try discriminate; congruence.
  - cbn. split; [reflexivity|]. destruct res; try discriminate; congruence.
Qed.

(** The recursion budget of [syncRules] is never used up: from any state, any
    budget of at least one gives the result of [syncRules], and that result
    is a value or an exception. *)
Lemma syncRules_fuel (env : Env) (n : nat) (w : World) :
  syncRulesFrom env (S n) w = syncRules env w /\ (syncRules env w).2 <> OutOfFuel.
Proof. unfold syncRules. split; apply (syncRulesFrom_any env _ 0 w). Qed.

(** * Global pause *)

Lemma live_ahead (now : N) (ts : Z) : Z.of_N now < ts -> live now ts = true.
Proof. unfold live. intros H. destruct (Z.eqb_spec ts 0); cbn; lia. Qed.

(** C2.  When the stored [pausedUntilTs] lies strictly ahead of the clock
    reading of a pass, the pass asks for no rule to be added, whatever the
    blocklist, the per-domain pauses, the pending grants and the permission
    answers are; once the update is accepted, no installed rule has an
    identifier in the reserved range. *)
Theorem global_pause_dominates (env : Env) (w : World) :
  Z.of_N (clock env (ticks w)) < pausedUntilTs (storage w) ->
  exists w' r,
    syncBody env w = (w', r) /\
    ruleUpdates (trace w') = ruleUpdates (trace w) ++ [(ourIds w, [])] /\
    (r = Ok tt -> forall rule, rule ∈ dynamicRules w' -> inOurRange rule = false).
Proof.
  intros Hahead. destruct (syncBody_run env w) as [qs Hrun]. cbn zeta in Hrun.
  assert (Hnone : desiredRules env w = []).
  { unfold desiredRules, passActive, activeDomains. rewrite live_ahead by exact Hahead.
    reflexivity. }
  rewrite Hnone in Hrun. rewrite Hrun.
  destruct w as [st ru al fl ti tr].
  destruct (rejects env _ _ _) as [message|]; eexists _, _; (split; [reflexivity|]); cbn.
  - split; [reflexivity|]. discriminate.
  - split; [reflexivity|]. intros _ rule Hrule. rewrite app_nil_r in Hrule.
    unfold foreign in Hrule. apply list_elem_of_filter in Hrule as [Hout _]. exact Hout.
Qed.

Lemma global_pause_dominates_witness :
  exists w' r,
    syncBody pausedEnv pausedWorld = (w', r) /\
    ruleUpdates (trace w') = ruleUpdates (trace pausedWorld) ++ [(ourIds pausedWorld, [])] /\
    (r = Ok tt -> forall rule, rule ∈ dynamicRules w' -> inOurRange rule = false).
Proof. apply (global_pause_dominates pausedEnv pausedWorld). reflexivity. Defined.

(** * The reserved range *)

Lemma inOurRange_spec (r : Rule) :
  inOurRange r = true <-> RULE_BASE <= id r < RULE_BASE + 90000.
Proof. unfold inOurRange. rewrite andb_true_iff, Z.leb_le, Z.ltb_lt. reflexivity. Qed.

Lemma ourIds_spec (w : World) (i : Z) :
  i ∈ ourIds w <->
  exists rule, rule ∈ dynamicRules w /\ id rule = i /\ RULE_BASE <= i < RULE_BASE + 90000.
Proof.
  unfold ourIds. rewrite list_elem_of_fmap. split.
  - intros (rule & -> & Hrule). apply list_elem_of_filter in Hrule as [Hin Hrule].
    exists rule. rewrite <- inOurRange_spec. auto.
  - intros (rule & Hrule & <- & Hin). exists rule. split; [reflexivity|].
    apply list_elem_of_filter. rewrite inOurRange_spec. auto.
Qed.

Lemma foreign_spec (w : World) (rule : Rule) :
  rule ∈ foreign w <->
  rule ∈ dynamicRules w /\ ~ (RULE_BASE <= id rule < RULE_BASE + 90000).
Proof.
  unfold foreign. rewrite list_elem_of_filter, <- inOurRange_spec.
  destruct (inOurRange rule); split; intros [H1 H2]; split; auto; congruence.
Qed.

Lemma filter_twice {A} (P : A -> Prop) `{!forall x, Decision (P x)} (l : list A) :
  filter P (filter P l) = filter P l.
Proof.
  induction l as [|x l IH]; [reflexivity|].
  rewrite filter_cons. destruct (decide (P x)) as [Hp|Hp]; [|exact IH].
  rewrite filter_cons, decide_True by exact Hp. rewrite IH. reflexivity.
Qed.

Section Frame.

Variable env : Env.

Lemma keeps_ret {A} (a : A) : keepsForeign (ret a).
Proof. intros w. reflexivity. Qed.

Lemma keeps_bind {A B} (m : Run A) (k : A -> Run B) :
  keepsForeign m -> (forall a, keepsForeign (k a)) -> keepsForeign (m ≫= k).
Proof.
  intros Hm Hk w. run_unfold. specialize (Hm w).
  destruct (m w) as [w1 [a|e|]]; cbn in *; try exact Hm.
  etrans; [exact Hm|apply Hk].
Qed.

Lemma keeps_tryCatch {A} (m : Run A) (h : string -> Run A) :
  keepsForeign m -> (forall e, keepsForeign (h e)) -> keepsForeign (tryCatch m h).
Proof.
  intros Hm Hh w. run_unfold. specialize (Hm w).
  destruct (m w) as [w1 [a|e|]]; cbn in *; try exact Hm.
  etrans; [exact Hm|apply Hh].
Qed.

Lemma keeps_tryFinally {A} (m : Run A) (after : Run unit) :
  keepsForeign m -> keepsForeign after -> keepsForeign (tryFinally m after).
Proof.
  intros Hm Ha w. run_unfold. specialize (Hm w).
  destruct (m w) as [w1 r]. specialize (Ha w1). cbn in *.
  destruct (after w1) as [w2 [[]|e|]]; cbn in *; etrans; eauto.
Qed.

Lemma keeps_modify (f : World -> World) :
  (forall w, dynamicRules (f w) = dynamicRules w) -> keepsForeign (modify f).
Proof. intros Hf w. unfold modify, foreign. cbn. rewrite Hf. reflexivity. Qed.

Lemma keeps_get {A} (f : World -> A) : keepsForeign (get f).
Proof. intros w. reflexivity. Qed.

Lemma keeps_Date_now : keepsForeign (Date_now env).
Proof. intros [st ru al fl ti tr]. reflexivity. Qed.

Lemma keeps_syncBody : keepsForeign (syncBody env).
Proof.
  intros w. destruct (syncBody_run env w) as [qs Hrun]. cbn zeta in Hrun. rewrite Hrun.
  destruct w as [st ru al fl ti tr].
  destruct (rejects env _ _ _) as [message|]; cbn; [reflexivity|].
  unfold foreign. cbn. rewrite filter_app, filter_twice. apply prefix_app_r. reflexivity.
Qed.

Ltac keeps :=
  repeat first
    [ apply keeps_ret | apply keeps_get | apply keeps_Date_now | apply keeps_syncBody
    | assumption
    | match goal with H : forall _, _ |- keepsForeign _ => apply H end
    | apply keeps_bind; [|intro]
    | apply keeps_tryCatch; [|intro]
    | apply keeps_tryFinally
    | apply keeps_modify; intros [? ? ? ? ? ?]; reflexivity
    | match goal with
      | |- keepsForeign (if ?b then _ else _) => destruct b
      | |- keepsForeign (match ?x with _ => _ end) => destruct x
      end ].

Lemma keeps_flags : keepsForeign claimMutex /\ keepsForeign releaseMutex /\ keepsForeign outOfFuel.
Proof. repeat split; intros [? ? ? ? ? ?]; reflexivity. Qed.

Lemma keeps_syncRulesFrom (n : nat) : keepsForeign (syncRulesFrom env n).
Proof.
  destruct keeps_flags as (Hc & Hr & Ho).
  induction n as [|n IH]; cbn [syncRulesFrom]; unfold notePass; keeps.
Qed.

Lemma keeps_syncRules : keepsForeign (syncRules env).
Proof. apply keeps_syncRulesFrom. Qed.

Lemma keeps_forEach {A} (l : list A) (f : A -> Run unit) :
  (forall x, keepsForeign (f x)) -> keepsForeign (forEach l f).
Proof. intros Hf. induction l as [|x l IH]; cbn [forEach]; keeps. Qed.

Lemma keeps_setDomainPause (d : string) (ts : Z) : keepsForeign (setDomainPause env d ts).
Proof. unfold setDomainPause, set_pausedDomains. keeps. Qed.

Lemma keeps_setPendingGrant (d : JsVal) (ts : Z) : keepsForeign (setPendingGrant env d ts).
Proof. unfold setPendingGrant, getPendingGrants, set_pendingGrants. keeps. Qed.

Lemma keeps_setGlobalPause (ts : Z) : keepsForeign (setGlobalPause ts).
Proof. unfold setGlobalPause, set_pausedUntilTs. keeps. Qed.

Lemma keeps_pauseAllForMinutes (m : Z) : keepsForeign (pauseAllForMinutes env m).
Proof.
  pose proof keeps_syncRules. pose proof keeps_setGlobalPause.
  unfold pauseAllForMinutes. keeps.
Qed.

Lemma keeps_resumeAllNow : keepsForeign (resumeAllNow env).
Proof.
  pose proof keeps_syncRules. pose proof keeps_setGlobalPause.
  unfold resumeAllNow, clearAllDomainPauses, set_pausedDomains. keeps.
  apply keeps_forEach. intros name. keeps.
Qed.

Lemma keeps_pauseDomainForMinutes (d : JsVal) (m : Z) :
  keepsForeign (pauseDomainForMinutes env d m).
Proof.
  pose proof keeps_syncRules. pose proof keeps_setDomainPause.
  unfold pauseDomainForMinutes. keeps.
Qed.

Lemma keeps_resumeDomainNow (d : JsVal) : keepsForeign (resumeDomainNow env d).
Proof.
  pose proof keeps_syncRules. pose proof keeps_setDomainPause.
  unfold resumeDomainNow. keeps.
Qed.

Lemma keeps_onStartup : keepsForeign (onStartup env).
Proof.
  pose proof keeps_syncRules.
  unfold onStartup, getState. keeps.
  apply keeps_forEach. intros entry. keeps.
Qed.

Lemma keeps_onAlarm (name : string) : keepsForeign (onAlarm env name).
Proof.
  pose proof keeps_resumeAllNow. pose proof keeps_resumeDomainNow.
  unfold onAlarm. keeps.
Qed.

Lemma keeps_onBlocklistChanged (oldArr newArr : list string) :
  keepsForeign (onBlocklistChanged env oldArr newArr).
Proof.
  pose proof keeps_setPendingGrant.
  unfold onBlocklistChanged. keeps. apply keeps_forEach. intros d. keeps.
Qed.

Lemma keeps_onMessage (msg : Message) : keepsForeign (onMessage env msg).
Proof.
  pose proof keeps_syncRules. pose proof keeps_pauseAllForMinutes.
  pose proof keeps_resumeAllNow. pose proof keeps_pauseDomainForMinutes.
  pose proof keeps_resumeDomainNow. pose proof keeps_setPendingGrant.
  unfold onMessage, dispatch. keeps.
Qed.

End Frame.

(** C5.  A pass issues exactly one rule update.  It asks to remove exactly
    the identifiers of the installed rules that lie in
    [RULE_BASE, RULE_BASE + 90000) and to add the compiled rules.  Accepted,
    the update leaves the rules outside the range in place, followed by the
    compiled ones; rejected, it leaves every rule in place.  No operation of
    the worker (a pass, [syncRules], startup, a command, an alarm, a change of
    the blocklist) removes or changes an installed rule outside the range. *)
Theorem pass_replaces_own_range (env : Env) (w : World) :
  (exists w' r,
     syncBody env w = (w', r) /\
     ruleUpdates (trace w') = ruleUpdates (trace w) ++ [(ourIds w, desiredRules env w)] /\
     (r = Ok tt -> dynamicRules w' = foreign w ++ desiredRules env w) /\
     (r <> Ok tt -> dynamicRules w' = dynamicRules w)) /\
  (forall i, i ∈ ourIds w <->
     exists rule, rule ∈ dynamicRules w /\ id rule = i /\ RULE_BASE <= i < RULE_BASE + 90000) /\
  (forall rule, rule ∈ foreign w <->
     rule ∈ dynamicRules w /\ ~ (RULE_BASE <= id rule < RULE_BASE + 90000)) /\
  foreign w `prefix_of` foreign (syncBody env w).1 /\
  foreign w `prefix_of` foreign (syncRules env w).1 /\
  foreign w `prefix_of` foreign (onStartup env w).1 /\
  (forall msg, foreign w `prefix_of` foreign (onMessage env msg w).1) /\
  (forall name, foreign w `prefix_of` foreign (onAlarm env name w).1) /\
  (forall oldArr newArr,
     foreign w `prefix_of` foreign (onBlocklistChanged env oldArr newArr w).1).
Proof.
  split; [|split; [apply ourIds_spec|split; [apply foreign_spec|]]].
  - destruct (syncBody_run env w) as [qs Hrun]. cbn zeta in Hrun. rewrite Hrun.
    destruct w as [st ru al fl ti tr].
    destruct (rejects env _ _ _) as [message|]; eexists _, _; (split; [reflexivity|]); cbn.
    + split; [reflexivity|]. split; [discriminate|reflexivity].
    + split; [reflexivity|]. split; [reflexivity|congruence].
  - split; [apply keeps_syncBody|]. split; [apply keeps_syncRules|].
    split; [apply keeps_onStartup|]. split; [intros msg; apply keeps_onMessage|].
    split; [intros name; apply keeps_onAlarm|].
    intros oldArr newArr. apply keeps_onBlocklistChanged.
Qed.

(** * Two passes in a row *)

(** [syncRules] called with the mutex free: one pass, as in [syncBody_run],
    counted in the trace, the flags back to where they were. *)
Lemma syncRules_idle_run (env : Env) (w : World) :
  flags w = mkFlags false false ->
  exists qs,
    let w1 := passed (noteUpdate (ourIds w, desiredRules env w)
                (noteQueries qs
                   (withStorage (reconcileStorage env (clock env (S (ticks w)))
                                   (blockedDomains (storage w)))
                      (withTicks (fun k => S (S k)) w)))) in
    syncRules env w
    = match rejects env (dynamicRules w) (ourIds w) (desiredRules env w) with
      | Some message => (w1, Throw message)
      | None => (withRules (fun _ => foreign w ++ desiredRules env w) w1, Ok tt)
      end.
Proof.
  intros Hf. unfold syncRules. rewrite syncRules_idle by exact Hf.
  set (w0 := (notePass _).1).
  destruct (syncBody_run env w0) as [qs Hrun]. cbn zeta in Hrun. exists qs. cbn zeta.
  rewrite Hrun. subst w0.
  destruct w as [st ru al fl ti [q u p]]. cbn in Hf. subst fl. cbn.
  unfold ourIds, desiredRules, passActive, passPermitted, foreign. cbn.
  destruct (rejects env ru _ _); reflexivity.
Qed.

Lemma StronglySorted_filter {A} (R : relation A) (P : A -> Prop)
    `{!forall x, Decision (P x)} (l : list A) :
  StronglySorted R l -> StronglySorted R (filter P l).
Proof.
  induction 1 as [|x l Hl IH Hx]; [constructor|].
  rewrite filter_cons. destruct (decide (P x)); [|exact IH].
  constructor; [exact IH|]. apply Forall_forall. intros y [_ Hy]%list_elem_of_filter.
  rewrite Forall_forall in Hx. apply Hx, Hy.
Qed.

Lemma sortedUnique_filter (P : string -> Prop) `{!forall x, Decision (P x)} (l : list string) :
  sortedUnique l -> sortedUnique (filter P l).
Proof.
  intros [Hs Hn]. split; [|apply NoDup_filter, Hn].
  apply StronglySorted_Sorted, StronglySorted_filter, Sorted_StronglySorted; [apply _|exact Hs].
Qed.

Lemma filter_all {A} (P : A -> Prop) `{!forall x, Decision (P x)} (l : list A) :
  (forall x, x ∈ l -> P x) -> filter P l = l.
Proof.
  induction l as [|x l IH]; intros Hall; [reflexivity|].
  rewrite filter_cons, decide_True by (apply Hall; left).
  rewrite IH; [reflexivity|]. intros y Hy. apply Hall. right. exact Hy.
Qed.

Lemma liveEntry_sweep_same (now later : N) (ds : list string) (p : gmap string Z) (d : string) :
  (forall x, x ∈ ds -> lapsedEntry now (p !! x) = true -> liveEntry later (p !! x) = false) ->
  liveEntry later (sweep now ds p !! d) = liveEntry later (p !! d).
Proof.
  unfold sweep. revert p. induction ds as [|x ds IH]; intros p Hds; [reflexivity|].
  cbn [foldl]. destruct (lapsedEntry now (p !! x)) eqn:El.
  - rewrite IH.
    + destruct (decide (x = d)) as [->|Hne].
      * rewrite lookup_delete_eq. symmetry. apply Hds; [left|exact El].
      * rewrite lookup_delete_ne by exact Hne. reflexivity.
    + intros y Hy. destruct (decide (x = y)) as [->|Hne].
      * rewrite lookup_delete_eq. discriminate.
      * rewrite lookup_delete_ne by exact Hne. apply Hds. right. exact Hy.
  - apply IH. intros y Hy. apply Hds. right. exact Hy.
Qed.

Lemma liveEntry_lapsedEntry (now : N) (e : option Z) :
  lapsedEntry now e = true -> liveEntry now e = false.
Proof.
  destruct e as [ts|]; [|reflexivity]. cbn. intros Hl.
  destruct (live now ts) eqn:E; [|reflexivity]. apply live_lapsed in E. congruence.
Qed.

(** The blocklist a pass leaves behind is the list of domains it permitted,
    when the blocklist was sorted and duplicate-free or nothing was denied. *)
Lemma reconciled_blocklist (env : Env) (w : World) :
  sortedUnique (blockedDomains (storage w)) \/ noneDenied env w ->
  blockedDomains (reconcileStorage env (clock env (S (ticks w)))
                    (blockedDomains (storage w)) (storage w))
  = passPermitted env w.
Proof.
  intros Hshape. unfold reconcileStorage, passPermitted. cbn [blockedDomains].
  destruct (forallb _ _) eqn:Eall.
  - pose proof (proj1 (forallb_permitted _ _ _ _) Eall) as Hall.
    symmetry. apply filter_all. exact Hall.
  - destruct Hshape as [Hsorted|Hnone].
    + apply (sortedUnique_filter
               (fun d => permitted env (clock env (S (ticks w))) (pendingGrants (storage w)) d = true))
        in Hsorted as [Hs Hn].
      apply uniqSorted_fixed; assumption.
    + pose proof (proj2 (forallb_permitted _ _ _ _) Hnone) as Hall. congruence.
Qed.

(** The second of two passes compiles what the first compiled. *)
Lemma desiredRules_stable (env : Env) (w w1 : World) :
  sortedUnique (blockedDomains (storage w)) \/ noneDenied env w ->
  noExpiryBetweenPasses env w ->
  storage w1 = reconcileStorage env (clock env (S (ticks w))) (blockedDomains (storage w)) (storage w) ->
  ticks w1 = S (S (ticks w)) ->
  desiredRules env w1 = desiredRules env w.
Proof.
  intros Hshape (Hglobal & Hdomain & Hgrant) Hst Hti.
  assert (Hbl : blockedDomains (storage w1) = passPermitted env w).
  { rewrite Hst. apply reconciled_blocklist, Hshape. }
  assert (Hsub : forall d, d ∈ passPermitted env w -> d ∈ blockedDomains (storage w)).
  { intros d Hd. unfold passPermitted in Hd. apply list_elem_of_filter in Hd. tauto. }
  assert (Hperm : passPermitted env w1 = passPermitted env w).
  { unfold passPermitted at 1. rewrite Hbl, Hti.
    rewrite (filter_agree _ (fun d => permitted env (clock env (S (ticks w)))
                                         (pendingGrants (storage w)) d = true)).
    - unfold passPermitted. apply filter_twice.
    - intros d Hd. apply Hsub in Hd. unfold permitted. rewrite Hst. cbn [pendingGrants reconcileStorage].
      rewrite liveEntry_sweep_same.
      + rewrite <- Hgrant by exact Hd. reflexivity.
      + intros x Hx Hl. rewrite <- Hgrant by exact Hx. apply liveEntry_lapsedEntry, Hl. }
  unfold desiredRules, passActive. rewrite Hperm, Hti. f_equal.
  unfold activeDomains. rewrite Hst. cbn [pausedUntilTs pausedDomains reconcileStorage].
  rewrite <- Hglobal. destruct (live _ _); [reflexivity|].
  apply filter_agree. intros d Hd. apply Hsub in Hd. rewrite Hdomain by exact Hd. reflexivity.
Qed.

Lemma syncRules_idle_effect (env : Env) (w : World) :
  flags w = mkFlags false false ->
  let w1 := (syncRules env w).1 in
  flags w1 = mkFlags false false /\
  storage w1 = reconcileStorage env (clock env (S (ticks w)))
                 (blockedDomains (storage w)) (storage w) /\
  ticks w1 = S (S (ticks w)) /\
  ruleUpdates (trace w1) = ruleUpdates (trace w) ++ [(ourIds w, desiredRules env w)] /\
  passes (trace w1) = S (passes (trace w)) /\
  alarms w1 = alarms w.
Proof.
  intros Hf. cbn zeta. destruct (syncRules_idle_run env w Hf) as [qs H1]. cbn zeta in H1.
  rewrite H1. clear H1. destruct w as [st ru al fl ti [q u p]]. cbn in Hf. subst fl.
  destruct (rejects env _ _ _); cbn; repeat split; reflexivity.
Qed.

(** C9, as the code has it.  Two runs of [syncRules] in a row, started with
    the mutex free, nothing else touching storage, permissions or rules in
    between, compile the same rules (same domains, identifiers and contents)
    when the stored blocklist is sorted and duplicate-free or the first pass
    denies no domain, and when no pause and no pending grant of a declared
    domain runs out between the clock readings of the two passes. *)
Theorem syncRules_twice (env : Env) (w : World) :
  flags w = mkFlags false false ->
  sortedUnique (blockedDomains (storage w)) \/ noneDenied env w ->
  noExpiryBetweenPasses env w ->
  let w1 := (syncRules env w).1 in
  let w2 := (syncRules env w1).1 in
  exists removed1 removed2 compiled,
    ruleUpdates (trace w2)
    = ruleUpdates (trace w) ++ [(removed1, compiled); (removed2, compiled)] /\
    compiled = desiredRules env w /\
    passes (trace w2) = S (S (passes (trace w))).
Proof.
  intros Hf Hshape Hquiet. cbn zeta.
  destruct (syncRules_idle_effect env w Hf) as (Hf1 & Hst1 & Hti1 & Hup1 & Hp1 & _).
  set (w1 := (syncRules env w).1) in *.
  destruct (syncRules_idle_effect env w1 Hf1) as (_ & _ & _ & Hup2 & Hp2 & _).
  exists (ourIds w), (ourIds w1), (desiredRules env w).
  rewrite Hup2, Hp2, Hup1, Hp1, <- app_assoc.
  rewrite (desiredRules_stable env w w1 Hshape Hquiet Hst1 Hti1).
  auto.
Qed.

Lemma syncRules_twice_witness :
  let w1 := (syncRules revokedEnv settledWorld).1 in
  let w2 := (syncRules revokedEnv w1).1 in
  exists removed1 removed2 compiled,
    ruleUpdates (trace w2)
    = ruleUpdates (trace settledWorld) ++ [(removed1, compiled); (removed2, compiled)] /\
    compiled = desiredRules revokedEnv settledWorld /\
    passes (trace w2) = S (S (passes (trace settledWorld))).
Proof.
  apply (syncRules_twice revokedEnv settledWorld).
  - reflexivity.
  - left. split.
    + repeat constructor; discriminate.
    + apply (bool_decide_unpack (NoDup ["a.com"; "b.com"; "x.com"])). vm_compute. exact I.
  - repeat split; intros; reflexivity.
Defined.

(** C9, as stated, fails.  First: with [b.com; a.com; x.com] declared and
    access to x.com missing, the first pass compiles b.com under 100000 and
    a.com under 100001 and rewrites the blocklist in sorted order; the second
    pass, with nothing changed in between and the clock standing still,
    compiles a.com under 100000 and b.com under 100001.  Second: with a global
    pause that ends between the two passes, storage untouched, the first pass
    compiles nothing and the second compiles the rule for a.com. *)
Lemma second_pass_compiles_differently :
  (let w1 := (syncRules revokedEnv unsortedWorld).1 in
   let w2 := (syncRules revokedEnv w1).1 in
   exists first second,
     ruleUpdates (trace w2) = [([], first); ([100000; 100001], second)] /\
     first = [domainRule 100000 "b.com"; domainRule 100001 "a.com"] /\
     second = [domainRule 100000 "a.com"; domainRule 100001 "b.com"] /\
     first <> second) /\
  (let w1 := (syncRules tickingEnv expiringWorld).1 in
   let w2 := (syncRules tickingEnv w1).1 in
   storage w1 = storage expiringWorld /\
   exists first second,
     ruleUpdates (trace w2) = [([], first); ([], second)] /\
     first = [] /\
     second = [domainRule 100000 "a.com"] /\
     first <> second).
Proof.
  split.
  - eexists _, _. split; [vm_compute; reflexivity|]. repeat split. discriminate.
  - split; [vm_compute; reflexivity|].
    eexists _, _. split; [vm_compute; reflexivity|]. repeat split. discriminate.
Qed.

(** * The coordinator *)

Module CoordinatorFacts.
Import Coordinator.

Lemma consistent_initial : consistent initial.
Proof. unfold consistent, initial. cbn. repeat split; intros; try lia; discriminate. Qed.

Lemma consistent_step (s s' : State) (e : Event) :
  consistent s -> step s e = Some s' -> consistent s'.
Proof.
  destruct s as [[sy nr] st fi wa]. unfold consistent. cbn.
  intros (Hle & Hsy & Hnr & Hwa) Hstep.
  assert (Hflag : sy = true \/ (sy = false /\ nr = false /\ st = fi /\ wa = 0%nat)).
  { destruct sy; [left; reflexivity|right].
    assert (nr = false) as -> by (destruct nr; [specialize (Hnr eq_refl); discriminate|reflexivity]).
    assert (st <> S fi) by (intros Hst; apply Hsy in Hst; discriminate).
    assert (wa = 0%nat) by (destruct wa; [reflexivity|]; destruct Hwa as [_ Hwa];
                            specialize (Hwa ltac:(lia)); discriminate).
    repeat split; [lia|assumption]. }
  assert (Hst : sy = true -> st = S fi) by (intros ->; apply Hsy; reflexivity).
  assert (Hcount : nr = false -> wa = 0%nat).
  { intros ->. destruct wa; [reflexivity|]. destruct Hwa as [_ Hwa].
    specialize (Hwa ltac:(lia)). discriminate. }
  clear Hsy Hnr Hwa.
  destruct e; unfold step in Hstep; cbn [started finished] in Hstep.
  - injection Hstep as <-. unfold request, enter. cbn.
    destruct Hflag as [->|(-> & -> & -> & ->)]; cbn.
    + specialize (Hst eq_refl). repeat split; intros; first [lia | reflexivity | discriminate | congruence].
    + repeat split; intros; first [lia | reflexivity | discriminate | congruence].
  - destruct (Nat.ltb_spec fi st) as [Hlt|Hge]; [|discriminate].
    injection Hstep as <-. unfold passEnds, leave, request, enter. cbn.
    destruct Hflag as [->|(-> & -> & -> & ->)]; [|lia].
    specialize (Hst eq_refl). subst st.
    destruct nr; cbn.
    + repeat split; intros; first [lia | reflexivity | discriminate | congruence].
    + rewrite (Hcount eq_refl).
      repeat split; intros; first [lia | reflexivity | discriminate | congruence].
Qed.

Lemma consistent_run (evs : list Event) (s s' : State) :
  consistent s -> run s evs = Some s' -> consistent s'.
Proof.
  revert s. induction evs as [|e evs IH]; intros s Hs Hrun; cbn in Hrun.
  - injection Hrun as <-. exact Hs.
  - destruct (step s e) as [s1|] eqn:E; [|discriminate].
    eapply IH; [|exact Hrun]. eapply consistent_step; eauto.
Qed.

(** Requests that arrive during a pass start nothing; they are counted. *)
Lemma requests_while_busy (n : nat) (s : State) :
  _syncing (flags s) = true ->
  run s (repeat Request n)
  = Some (mkState (mkFlags true (if n is O then _needsResync (flags s) else true))
                  (started s) (finished s) (waiting s + n)).
Proof.
  revert s. induction n as [|n IH]; intros [[sy nr] st fi wa] Hsy; cbn in Hsy; subst sy.
  - cbn. rewrite Nat.add_0_r. reflexivity.
  - cbn [repeat run step]. unfold request, enter. cbn [flags _syncing snd fst].
    rewrite IH by reflexivity. cbn. f_equal. f_equal; [destruct n; reflexivity|lia].
Qed.

End CoordinatorFacts.

(** C1.  In every state the coordinator can reach, at most one pass is in
    flight, and with none in flight no request is left waiting.  From a state
    with a pass in flight, [n >= 1] requests start no pass; the end of the
    pass in flight starts exactly one more pass, which began after all [n]
    requests; when that pass ends, no further pass has started and none is in
    flight. *)
Theorem coalescing (evs : list Coordinator.Event) (s : Coordinator.State) (n : nat) :
  Coordinator.run Coordinator.initial evs = Some s ->
  (Coordinator.inFlight s <= 1)%nat /\
  (Coordinator.inFlight s = 0%nat -> Coordinator.waiting s = 0%nat) /\
  (Coordinator.inFlight s = 1%nat -> (1 <= n)%nat ->
   exists s1 s2 s3,
     Coordinator.run s (repeat Coordinator.Request n) = Some s1 /\
     Coordinator.started s1 = Coordinator.started s /\
     Coordinator.inFlight s1 = 1%nat /\
     Coordinator.waiting s1 = (Coordinator.waiting s + n)%nat /\
     Coordinator.step s1 Coordinator.PassEnds = Some s2 /\
     Coordinator.started s2 = S (Coordinator.started s) /\
     Coordinator.inFlight s2 = 1%nat /\
     Coordinator.waiting s2 = 0%nat /\
     Coordinator.step s2 Coordinator.PassEnds = Some s3 /\
     Coordinator.started s3 = S (Coordinator.started s) /\
     Coordinator.inFlight s3 = 0%nat /\
     Coordinator.waiting s3 = 0%nat).
Proof.
  intros Hrun.
  pose proof (CoordinatorFacts.consistent_run evs _ _ CoordinatorFacts.consistent_initial Hrun)
    as (Hle & Hsy & Hnr & Hwa).
  unfold Coordinator.inFlight.
  split; [lia|]. split.
  { intros Hidle. destruct (Coordinator.waiting s) eqn:Ew; [reflexivity|].
    destruct Hwa as [_ Hwa]. specialize (Hwa ltac:(lia)). apply Hnr, Hsy in Hwa. lia. }
  intros Hone Hn.
  assert (Hbusy : _syncing (Coordinator.flags s) = true) by (apply Hsy; lia).
  rewrite (CoordinatorFacts.requests_while_busy n s Hbusy).
  destruct n as [|n]; [lia|].
  destruct s as [[sy nr] st fi wa]. cbn in *. subst sy.
  assert (st = S fi) as -> by (apply Hsy; reflexivity).
  assert (H1 : (fi <? S fi)%nat = true) by (apply Nat.ltb_lt; lia).
  assert (H2 : (S fi <? S (S fi))%nat = true) by (apply Nat.ltb_lt; lia).
  exists (Coordinator.mkState (mkFlags true true) (S fi) fi (wa + S n)),
         (Coordinator.mkState (mkFlags true false) (S (S fi)) (S fi) 0),
         (Coordinator.mkState (mkFlags false false) (S (S fi)) (S (S fi)) 0).
  unfold Coordinator.step, Coordinator.passEnds, Coordinator.request, leave, enter.
  cbn [Coordinator.flags Coordinator.started Coordinator.finished Coordinator.waiting
       _syncing _needsResync fst snd].
  rewrite ?H1, ?H2, ?Nat.leb_refl. repeat split; lia.
Qed.

Lemma coalescing_witness :
  (Coordinator.inFlight (Coordinator.request Coordinator.initial) <= 1)%nat /\
  exists s1 s2 s3,
    Coordinator.run (Coordinator.request Coordinator.initial) (repeat Coordinator.Request 3)
      = Some s1 /\
    Coordinator.started s1 = 1%nat /\
    Coordinator.inFlight s1 = 1%nat /\
    Coordinator.waiting s1 = 3%nat /\
    Coordinator.step s1 Coordinator.PassEnds = Some s2 /\
    Coordinator.started s2 = 2%nat /\
    Coordinator.inFlight s2 = 1%nat /\
    Coordinator.waiting s2 = 0%nat /\
    Coordinator.step s2 Coordinator.PassEnds = Some s3 /\
    Coordinator.started s3 = 2%nat /\
    Coordinator.inFlight s3 = 0%nat /\
    Coordinator.waiting s3 = 0%nat.
Proof.
  destruct (coalescing [Coordinator.Request] (Coordinator.request Coordinator.initial) 3 eq_refl)
    as (Hone & _ & Hmore).
  split; [exact Hone|]. apply Hmore; [reflexivity|repeat constructor].
Defined.

(** * Startup *)

Lemma alarm_name_inj (d d' : string) :
  "fg:resume:" +:+ d = "fg:resume:" +:+ d' -> d = d'.
Proof. cbn. intros [= H]. exact H. Qed.

Lemma alarm_name_global (d : string) : "fg:resume:" +:+ d <> "fg:resumeAll".
Proof. cbn. discriminate. Qed.

Lemma forEach_arm (env : Env) (now : N) (entries : list (string * Z)) (w : World) :
  forEach entries (fun entry =>
      if live now entry.2
      then alarms_create ("fg:resume:" +:+ entry.1) entry.2 else ret tt) w
  = (withAlarms (fun a => arm now a entries) w, Ok tt).
Proof.
  revert w. induction entries as [|[d ts] entries IH]; intros w.
  - destruct w; reflexivity.
  - cbn [forEach]. run_unfold. cbn [fst snd]. unfold arm. cbn [foldl fst snd].
    destruct (live now ts); unfold alarms_create, modify; cbn; rewrite IH;
      destruct w; reflexivity.
Qed.

Lemma arm_cons (now : N) (a : gmap string Z) (d : string) (ts : Z) (entries : list (string * Z)) :
  arm now a ((d, ts) :: entries)
  = arm now (if live now ts then <["fg:resume:" +:+ d := ts]> a else a) entries.
Proof. reflexivity. Qed.

Lemma arm_other (now : N) (entries : list (string * Z)) (a : gmap string Z) (name : string) :
  (forall d ts, (d, ts) ∈ entries -> live now ts = true -> "fg:resume:" +:+ d <> name) ->
  arm now a entries !! name = a !! name.
Proof.
  revert a. induction entries as [|[d ts] entries IH]; intros a Hother; [reflexivity|].
  rewrite arm_cons, IH.
  - destruct (live now ts) eqn:El; [|reflexivity].
    apply lookup_insert_ne. apply (Hother d ts); [left|exact El].
  - intros d2 ts2 Hin Hl. apply (Hother d2 ts2); [right; exact Hin|exact Hl].
Qed.

Lemma arm_armed (now : N) (entries : list (string * Z)) (a : gmap string Z) (d : string) (ts : Z) :
  NoDup entries.*1 -> (d, ts) ∈ entries -> live now ts = true ->
  arm now a entries !! ("fg:resume:" +:+ d) = Some ts.
Proof.
  revert a. induction entries as [|[d' ts'] entries IH]; intros a Hnd Hin Hl.
  - inversion Hin.
  - rewrite arm_cons. rewrite fmap_cons in Hnd. apply NoDup_cons in Hnd as [Hfresh Hnd].
    apply elem_of_cons in Hin as [[= <- <-]|Hin].
    + rewrite Hl, arm_other; [apply lookup_insert_eq|].
      intros d2 ts2 Hin2 _ Heq. apply alarm_name_inj in Heq. subst d2.
      apply Hfresh. apply list_elem_of_fmap. exists (d, ts2). auto.
    + apply IH; assumption.
Qed.

(** The [onStartup] listener: one clock reading, the alarms armed, then
    [syncRules]. *)
Lemma onStartup_run (env : Env) (w : World) :
  let now := clock env (ticks w) in
  let s := storage w in
  onStartup env w
  = syncRules env
      (withAlarms
         (fun a => arm now (if live now (pausedUntilTs s)
                           then <["fg:resumeAll" := pausedUntilTs s]> a else a)
                     (map_to_list (pausedDomains s)))
         (withTicks S w)).
Proof.
  cbn zeta. unfold onStartup. run_unfold. unfold getState, Date_now, get. cbn [fst snd].
  remember (forEach (map_to_list (pausedDomains (storage w))) _) as loop eqn:Hloop.
  destruct (live _ (pausedUntilTs (storage w))); unfold alarms_create, modify; cbn beta iota;
    subst loop; rewrite (forEach_arm env); destruct w; reflexivity.
Qed.

(** C7.  At startup, with the flags at their initial values: every stored
    pause whose expiry is ahead of the clock (the global one, and each entry
    of [pausedDomains]) has an alarm under its name ([fg:resumeAll],
    [fg:resume:] followed by the domain) set to that expiry; a pause whose
    expiry has passed leaves the alarm of its name as it was; and one
    reconciliation pass has run. *)
Theorem startup_rearms (env : Env) (w : World) :
  flags w = mkFlags false false ->
  let now := clock env (ticks w) in
  let s := storage w in
  let w' := (onStartup env w).1 in
  (Z.of_N now < pausedUntilTs s -> alarms w' !! "fg:resumeAll" = Some (pausedUntilTs s)) /\
  (forall d ts, pausedDomains s !! d = Some ts -> Z.of_N now < ts ->
     alarms w' !! ("fg:resume:" +:+ d) = Some ts) /\
  (pausedUntilTs s <= Z.of_N now -> alarms w' !! "fg:resumeAll" = alarms w !! "fg:resumeAll") /\
  (forall d ts, pausedDomains s !! d = Some ts -> ts <= Z.of_N now ->
     alarms w' !! ("fg:resume:" +:+ d) = alarms w !! ("fg:resume:" +:+ d)) /\
  passes (trace w') = S (passes (trace w)) /\
  (exists update, ruleUpdates (trace w') = ruleUpdates (trace w) ++ [update]).
Proof.
  intros Hf. cbn zeta. rewrite onStartup_run. cbn zeta.
  set (now := clock env (ticks w)). set (s := storage w).
  set (w0 := withAlarms _ (withTicks S w)).
  assert (Hf0 : flags w0 = mkFlags false false) by (destruct w; exact Hf).
  destruct (syncRules_idle_effect env w0 Hf0) as (_ & _ & _ & Hup & Hp & Hal).
  rewrite Hal, Hup, Hp.
  assert (Halarms : alarms w0 = arm now (if live now (pausedUntilTs s)
                                          then <["fg:resumeAll" := pausedUntilTs s]> (alarms w)
                                          else alarms w)
                                  (map_to_list (pausedDomains s))).
  { destruct w; reflexivity. }
  rewrite Halarms.
  assert (Hglobal : forall a, arm now a (map_to_list (pausedDomains s)) !! "fg:resumeAll"
                              = a !! "fg:resumeAll").
  { intros a. apply arm_other. intros d ts _ _. apply alarm_name_global. }
  assert (Hdead : forall ts, ts <= Z.of_N now -> live now ts = false).
  { intros ts Hts. unfold live. destruct (ts =? 0); cbn; [reflexivity|lia]. }
  split; [|split; [|split; [|split; [|split]]]].
  - intros Hahead. rewrite Hglobal, live_ahead by exact Hahead. apply lookup_insert_eq.
  - intros d ts Hd Hahead. apply arm_armed.
    + apply NoDup_fst_map_to_list.
    + apply elem_of_map_to_list. exact Hd.
    + apply live_ahead, Hahead.
  - intros Hpast. rewrite Hglobal, Hdead by exact Hpast. reflexivity.
  - intros d ts Hd Hpast. rewrite arm_other.
    + destruct (live now (pausedUntilTs s)); [|reflexivity].
      apply lookup_insert_ne. intros Heq. symmetry in Heq. exact (alarm_name_global d Heq).
    + intros d2 ts2 Hin Hl Heq. apply alarm_name_inj in Heq. subst d2.
      apply elem_of_map_to_list in Hin. rewrite Hd in Hin. injection Hin as <-.
      rewrite Hdead in Hl by exact Hpast. discriminate.
  - destruct w as [st ru al fl ti [q u p]]. reflexivity.
  - eexists. destruct w as [st ru al fl ti [q u p]]. reflexivity.
Qed.

Lemma startup_rearms_witness :
  let w' := (onStartup restartEnv restartWorld).1 in
  alarms w' !! "fg:resumeAll" = Some 5000 /\
  alarms w' !! "fg:resume:d.example" = Some 301000 /\
  alarms w' !! "fg:resume:old.example" = None /\
  passes (trace w') = 1%nat.
Proof.
  destruct (startup_rearms restartEnv restartWorld eq_refl) as (Hg & Hd & _ & Ho & Hp & _).
  cbn zeta in *. split; [|split; [|split]].
  - apply Hg. reflexivity.
  - apply (Hd "d.example" 301000); reflexivity.
  - apply (Ho "old.example" 900); [reflexivity|discriminate].
  - exact Hp.
Defined.

(** * The command router *)

Section Router.

Variable env : Env.

Lemma ends_ret {A} (a : A) : ends (ret a).
Proof. intros w. discriminate. Qed.

Lemma ends_bind {A B} (m : Run A) (k : A -> Run B) :
  ends m -> (forall a, ends (k a)) -> ends (m ≫= k).
Proof.
  intros Hm Hk w. run_unfold. specialize (Hm w).
  destruct (m w) as [w1 [a|e|]]; cbn in *; [apply Hk|discriminate|congruence].
Qed.

Lemma ends_tryCatch {A} (m : Run A) (h : string -> Run A) :
  ends m -> (forall e, ends (h e)) -> ends (tryCatch m h).
Proof.
  intros Hm Hh w. run_unfold. specialize (Hm w).
  destruct (m w) as [w1 [a|e|]]; cbn in *; [discriminate|apply Hh|congruence].
Qed.

Lemma ends_modify (f : World -> World) : ends (modify f).
Proof. intros w. discriminate. Qed.

Lemma ends_get {A} (f : World -> A) : ends (get f).
Proof. intros w. discriminate. Qed.

Lemma ends_Date_now : ends (Date_now env).
Proof. intros w. discriminate. Qed.

Lemma ends_syncRules : ends (syncRules env).
Proof. intros w. apply (syncRules_fuel env 0 w). Qed.

Ltac ends_auto :=
  repeat first
    [ apply ends_ret | apply ends_get | apply ends_Date_now | apply ends_syncRules
    | apply ends_modify
    | assumption
    | match goal with H : forall _, _ |- ends _ => apply H end
    | apply ends_bind; [|intro]
    | apply ends_tryCatch; [|intro]
    | match goal with
      | |- ends (if ?b then _ else _) => destruct b
      | |- ends (match ?x with _ => _ end) => destruct x
      end ].

Lemma ends_forEach {A} (l : list A) (f : A -> Run unit) :
  (forall x, ends (f x)) -> ends (forEach l f).
Proof. intros Hf. induction l as [|x l IH]; cbn [forEach]; ends_auto. Qed.

Lemma ends_setDomainPause (d : string) (ts : Z) : ends (setDomainPause env d ts).
Proof. unfold setDomainPause, set_pausedDomains. ends_auto. Qed.

Lemma ends_setPendingGrant (d : JsVal) (ts : Z) : ends (setPendingGrant env d ts).
Proof. unfold setPendingGrant, getPendingGrants, set_pendingGrants. ends_auto. Qed.

Lemma ends_dispatch (msg : Message) : ends (dispatch env msg).
Proof.
  pose proof ends_setDomainPause. pose proof ends_setPendingGrant.
  assert (ends (resumeAllNow env)).
  { unfold resumeAllNow, setGlobalPause, clearAllDomainPauses, set_pausedUntilTs,
      set_pausedDomains, alarms_clear.
    ends_auto. apply ends_forEach. intros name. ends_auto. }
  unfold dispatch, pauseAllForMinutes, pauseDomainForMinutes, resumeDomainNow,
    setGlobalPause, set_pausedUntilTs, alarms_create, alarms_clear.
  ends_auto.
Qed.

Lemma shape_success : answersInShape (ret success).
Proof. intros w w' r [= _ <-]. left. reflexivity. Qed.

Lemma shape_failure (message : string) : answersInShape (ret (failure message)).
Proof. intros w w' r [= _ <-]. right. eauto. Qed.

Lemma shape_bind {A} (m : Run A) (k : A -> Run Response) :
  (forall a, answersInShape (k a)) -> answersInShape (m ≫= k).
Proof.
  intros Hk w w' r. run_unfold. destruct (m w) as [w1 [a|e|]]; [apply Hk|discriminate..].
Qed.

Lemma shape_dispatch (msg : Message) : answersInShape (dispatch env msg).
Proof.
  unfold dispatch.
  repeat first
    [ apply shape_success | apply shape_failure
    | apply shape_bind; intro
    | match goal with
      | |- answersInShape (if ?b then _ else _) => destruct b
      | |- answersInShape (match ?x with _ => _ end) => destruct x
      end ].
Qed.

(** X24.  Every message gets a response, [{ok: true}] or [{ok: false, error}]:
    the router neither throws nor fails to end, whatever the message and the
    state of the world. *)
Lemma onMessage_responds (msg : Message) (w : World) :
  exists w' r,
    onMessage env msg w = (w', Ok r) /\
    (r = success \/ exists message, r = failure message).
Proof.
  unfold onMessage. run_unfold. pose proof (ends_dispatch msg w) as Hends.
  destruct (dispatch env msg w) as [w1 [r|e|]] eqn:Hd; cbn in *; [| |congruence].
  - exists w1, r. split; [reflexivity|]. exact (shape_dispatch msg w w1 r Hd).
  - exists w1, (failure e). split; [reflexivity|]. right. eauto.
Qed.

Lemma unknown_eqb (c : string) :
  c ∉ knownCommands ->
  String.eqb c "syncRules" = false /\ String.eqb c "pauseForMinutes" = false /\
  String.eqb c "resumeNow" = false /\ String.eqb c "pauseDomain" = false /\
  String.eqb c "resumeDomain" = false /\ String.eqb c "markPending" = false /\
  String.eqb c "markGranted" = false.
Proof.
  intros Hc. repeat split; apply String.eqb_neq; intros ->; apply Hc;
    unfold knownCommands; set_solver.
Qed.

(** X25.  What the router turns down, with the world left as it was: a command it
    does not know, minutes that are not a positive number, a domain that is
    missing or empty. *)
Lemma onMessage_rejects (msg : Message) (w : World) :
  (forall c, cmd msg = JStr c -> c ∉ knownCommands ->
     onMessage env msg w = (w, Ok (failure "Unknown command"))) /\
  (isString (cmd msg) = false ->
     onMessage env msg w = (w, Ok (failure "Unknown command"))) /\
  (cmd msg = JStr "pauseForMinutes" -> positiveNumber (minutes msg) = None ->
     onMessage env msg w = (w, Ok (failure "Invalid minutes"))) /\
  (cmd msg = JStr "pauseDomain" ->
     truthy (domain msg) = false \/ positiveNumber (minutes msg) = None ->
     onMessage env msg w = (w, Ok (failure "Invalid domain or minutes"))) /\
  (cmd msg = JStr "resumeDomain" \/ cmd msg = JStr "markPending" \/ cmd msg = JStr "markGranted" ->
     truthy (domain msg) = false ->
     onMessage env msg w = (w, Ok (failure "Invalid domain"))).
Proof.
  destruct msg as [c d m]. cbn [cmd domain minutes]. unfold onMessage, dispatch. run_unfold.
  cbn [cmd domain minutes].
  split; [|split; [|split; [|split]]].
  - intros name -> Hname. destruct (unknown_eqb name Hname) as (-> & -> & -> & -> & -> & -> & ->).
    reflexivity.
  - intros Hc. destruct c; try reflexivity. discriminate Hc.
  - intros -> ->. reflexivity.
  - intros -> [Hd|Hm]; cbn; rewrite ?Hd, ?Hm; [reflexivity|].
    destruct (truthy d); reflexivity.
  - intros [ -> | [ -> | -> ] ] ->; reflexivity.
Qed.

End Router.

Lemma setPendingGrant_run (env : Env) (d : JsVal) (untilTs : Z) (w : World) :
  untilTs <> 0 ->
  setPendingGrant env d untilTs w
  = (withStorage
       (fun s => mkStorage (blockedDomains s) (pausedUntilTs s) (pausedDomains s)
                   (if Z.of_N (clock env (ticks w)) <? untilTs
                    then <[toPropertyKey d := untilTs]> (pendingGrants s)
                    else delete (toPropertyKey d) (pendingGrants s)))
       (withTicks S w),
     Ok tt).
Proof.
  intros Hts. unfold setPendingGrant, getPendingGrants, set_pendingGrants, Date_now. run_unfold.
  destruct (Z.eqb_spec untilTs 0) as [|_]; [contradiction|].
  destruct w as [[b u pd pg] ru al fl ti tr]. cbn.
  destruct (Z.of_N (clock env ti) <? untilTs); reflexivity.
Qed.

Lemma key_of_42 : toPropertyKey (JNum 42) = "42".
Proof. vm_compute. reflexivity. Qed.

(** C8 on the input where the code departs from it.  A [pauseDomain] or
    [resumeDomain] command whose domain is the number 42 is answered
    [{ok: true}] although nothing is done; a [markPending] command with that
    domain is answered [{ok: true}] and writes a pending grant under the key
    [42]. *)
Theorem router_accepts_non_string_domain (env : Env) (w : World) :
  onMessage env (mkMessage (JStr "pauseDomain") (JNum 42) (JNum 5)) w = (w, Ok success) /\
  onMessage env (mkMessage (JStr "resumeDomain") (JNum 42) JUndefined) w = (w, Ok success) /\
  (onMessage env (mkMessage (JStr "markPending") (JNum 42) JUndefined) w).2 = Ok success /\
  (Z.of_N (clock env (S (ticks w))) < Z.of_N (clock env (ticks w)) + 15000 ->
   pendingGrants (storage (onMessage env (mkMessage (JStr "markPending") (JNum 42) JUndefined) w).1)
   = <["42" := Z.of_N (clock env (ticks w)) + 15000]> (pendingGrants (storage w))).
Proof.
  split; [reflexivity|]. split; [reflexivity|].
  assert (Hrun : onMessage env (mkMessage (JStr "markPending") (JNum 42) JUndefined) w
                 = ((setPendingGrant env (JNum 42) (Z.of_N (clock env (ticks w)) + 15000)
                       (withTicks S w)).1, Ok success)).
  { unfold onMessage, dispatch. run_unfold. cbn [cmd domain minutes]. 
    change (String.eqb "markPending" "syncRules") with false.
    change (String.eqb "markPending" "pauseForMinutes") with false.
    change (String.eqb "markPending" "resumeNow") with false.
    change (String.eqb "markPending" "pauseDomain") with false.
    change (String.eqb "markPending" "resumeDomain") with false.
    change (String.eqb "markPending" "markPending") with true.
    cbn [truthy Z.eqb negb]. unfold Date_now at 1.
    rewrite setPendingGrant_run by lia. reflexivity. }
  rewrite Hrun. split; [reflexivity|].
  intros Hsoon. rewrite setPendingGrant_run by lia. rewrite key_of_42.
  destruct w as [[b u pd pg] ru al fl ti tr]. cbn in *.
  destruct (Z.ltb_spec (Z.of_N (clock env (S ti))) (Z.of_N (clock env ti) + 15000)); [reflexivity|lia].
Qed.

(** * The model on concrete inputs *)

Example encode_example :
  JsString.encodeURIComponent "a b&c.com/<x>" = "a%20b%26c.com%2F%3Cx%3E".
Proof. reflexivity. Qed.

Example decode_rejects_stray_percent : JsString.decodeURIComponent "50%" = None.
Proof. reflexivity. Qed.

Example hash_with_www :
  BlockedPage.getDomainFromHash "#d=WWW.Example.com&x=1" = Some "example.com".
Proof. reflexivity. Qed.

Example uniqSorted_example :
  sort (arrayFromSet ["b.com"; "a.com"; "b.com"; "B.com"]) = ["B.com"; "a.com"; "b.com"].
Proof. vm_compute. reflexivity. Qed.

Example unknown_command_example :
  onMessage pausedEnv (mkMessage (JStr "openPopup") JUndefined JUndefined) pausedWorld
  = (pausedWorld, Ok (failure "Unknown command")).
Proof. reflexivity. Qed.

Example rejected_update_example :
  let env := mkEnv (fun _ => 1000%N) (fun _ => Granted) (fun _ _ _ => Some "quota") in
  onMessage env (mkMessage (JStr "syncRules") JUndefined JUndefined) settledWorld
  = ((syncRules env settledWorld).1, Ok (failure "quota")).
Proof. vm_compute. reflexivity. Qed.

(** * Further properties of the worker *)

Lemma append_hat_inj (a b : string) : a +:+ "^" = b +:+ "^" -> a = b.
Proof.
  revert b. induction a as [|x a IH]; intros [|y b]; cbn; intros H.
  - reflexivity.
  - injection H as _ H. destruct b; discriminate H.
  - injection H as _ H. destruct a; discriminate H.
  - injection H as -> H. f_equal. apply IH, H.
Qed.

Lemma urlFilter_inj (i j : Z) (d d' : string) :
  urlFilter (domainRule i d) = urlFilter (domainRule j d') -> d = d'.
Proof. cbn. intros [= H]. apply append_hat_inj, H. Qed.

Lemma blocks_compiled (active : list string) (d : string) :
  blocks (compileRules active) d <-> d ∈ active.
Proof.
  unfold blocks. split.
  - intros (rule & Hin & Hf). apply list_elem_of_lookup in Hin as [i Hi].
    rewrite compileRules_lookup in Hi. destruct (active !! i) as [d'|] eqn:Ed; [|discriminate].
    injection Hi as <-. apply (urlFilter_inj _ 0 d' d) in Hf. subst d'.
    apply list_elem_of_lookup. eauto.
  - intros Hin. apply list_elem_of_lookup in Hin as [i Hi].
    exists (domainRule (RULE_BASE + Z.of_nat i) d). split; [|reflexivity].
    apply list_elem_of_lookup. exists i. rewrite compileRules_lookup, Hi. reflexivity.
Qed.

Lemma passActive_elem (env : Env) (w : World) (d : string) :
  d ∈ passActive env w <->
  live (clock env (ticks w)) (pausedUntilTs (storage w)) = false /\
  d ∈ blockedDomains (storage w) /\
  permitted env (clock env (S (ticks w))) (pendingGrants (storage w)) d = true /\
  liveEntry (clock env (ticks w)) (pausedDomains (storage w) !! d) = false.
Proof.
  unfold passActive, activeDomains, passPermitted.
  destruct (live _ _).
  - rewrite elem_of_nil. split; [tauto|]. intros [H _]. discriminate.
  - rewrite !list_elem_of_filter. tauto.
Qed.

Lemma blocks_desired (env : Env) (w : World) (d : string) :
  blocks (desiredRules env w) d <-> d ∈ passActive env w.
Proof. apply blocks_compiled. Qed.

(** What a call of [syncRules] with the mutex free returns and installs. *)
Lemma syncRules_idle_outcome (env : Env) (w : World) :
  flags w = mkFlags false false ->
  (syncRules env w).2
    = match rejects env (dynamicRules w) (ourIds w) (desiredRules env w) with
      | Some message => Throw message
      | None => Ok tt
      end /\
  dynamicRules (syncRules env w).1
    = match rejects env (dynamicRules w) (ourIds w) (desiredRules env w) with
      | Some _ => dynamicRules w
      | None => foreign w ++ desiredRules env w
      end.
Proof.
  intros Hf. destruct (syncRules_idle_run env w Hf) as [qs H]. cbn zeta in H. rewrite H.
  destruct w as [st ru al fl ti [q u p]].
  destruct (rejects env _ _ _); split; reflexivity.
Qed.

Lemma reconciled_blocklist_elem (env : Env) (now : N) (s : Storage) (d : string) :
  d ∈ blockedDomains (reconcileStorage env now (blockedDomains s) s) <->
  d ∈ blockedDomains s /\
  (permitted env now (pendingGrants s) d = true \/
   forallb (permitted env now (pendingGrants s)) (blockedDomains s) = true).
Proof.
  unfold reconcileStorage. cbn [blockedDomains].
  destruct (forallb _ _) eqn:Eall.
  - tauto.
  - rewrite uniqSorted_elem, list_elem_of_filter. split; [tauto|].
    intros [Hd [Hp|Hp]]; [tauto|discriminate].
Qed.

(** X1.  A domain that is neither covered by a running pending grant nor
    reported accessible gets no rule from a pass: the rules the pass compiles
    hold none for it, once the update is accepted no installed rule of the
    reserved range is for it, and it is not in the stored blocklist
    afterwards. *)
Theorem unauthorized_domain_has_no_rule (env : Env) (w : World) (d : string) :
  flags w = mkFlags false false ->
  permitted env (clock env (S (ticks w))) (pendingGrants (storage w)) d = false ->
  let w' := (syncRules env w).1 in
  (exists removed compiled,
     ruleUpdates (trace w') = ruleUpdates (trace w) ++ [(removed, compiled)] /\
     ~ blocks compiled d) /\
  ((syncRules env w).2 = Ok tt ->
   forall rule, rule ∈ dynamicRules w' -> inOurRange rule = true ->
     urlFilter rule <> "||" +:+ d +:+ "^") /\
  d ∉ blockedDomains (storage w').
Proof.
  intros Hf Hden. cbn zeta.
  destruct (syncRules_idle_effect env w Hf) as (_ & Hst & _ & Hup & _ & _).
  destruct (syncRules_idle_outcome env w Hf) as (Hres & Hrules).
  assert (Hnot : ~ blocks (desiredRules env w) d).
  { rewrite blocks_desired, passActive_elem. intros (_ & _ & Hp & _). congruence. }
  split; [|split].
  - exists (ourIds w), (desiredRules env w). auto.
  - intros Hok rule Hin Hrange Hfilter. rewrite Hres in Hok. rewrite Hrules in Hin.
    destruct (rejects env _ _ _); [discriminate|].
    apply elem_of_app in Hin as [Hin|Hin].
    + apply foreign_spec in Hin as [_ Hout]. apply inOurRange_spec in Hrange. tauto.
    + apply Hnot. exists rule. auto.
  - rewrite Hst, reconciled_blocklist_elem. intros [Hin [Hp|Hall]]; [congruence|].
    pose proof (proj1 (forallb_permitted _ _ _ _) Hall d Hin). congruence.
Qed.

Lemma unauthorized_domain_has_no_rule_witness :
  let w' := (syncRules revokedEnv unsortedWorld).1 in
  (exists removed compiled,
     ruleUpdates (trace w') = ruleUpdates (trace unsortedWorld) ++ [(removed, compiled)] /\
     ~ blocks compiled "x.com") /\
  ((syncRules revokedEnv unsortedWorld).2 = Ok tt ->
   forall rule, rule ∈ dynamicRules w' -> inOurRange rule = true ->
     urlFilter rule <> "||" +:+ "x.com" +:+ "^") /\
  "x.com" ∉ blockedDomains (storage w').
Proof.
  apply (unauthorized_domain_has_no_rule revokedEnv unsortedWorld "x.com");
    [reflexivity|vm_compute; reflexivity].
Defined.

(** ** Snooze of one domain *)


Lemma truthy_nonempty (d : string) : d <> "" -> truthy (JStr d) = true.
Proof. intros Hd. cbn. apply negb_true_iff, String.eqb_neq, Hd. Qed.




(** ** Alarms *)

Lemma substring_all (s : string) : String.substring 0 (String.length s) s = s.
Proof. induction s as [|c s IH]; [reflexivity|]. cbn. rewrite IH. reflexivity. Qed.

Lemma substring_after (p s : string) :
  String.substring (String.length p) (String.length (p +:+ s) - String.length p) (p +:+ s) = s.
Proof.
  induction p as [|c p IH]; cbn.
  - rewrite Nat.sub_0_r. apply substring_all.
  - exact IH.
Qed.

Lemma alarm_name_domain (d : string) :
  String.substring 10 (String.length ("fg:resume:" +:+ d) - 10) ("fg:resume:" +:+ d) = d.
Proof. exact (substring_after "fg:resume:" d). Qed.

Lemma alarm_name_prefix (d : string) : String.prefix "fg:resume:" ("fg:resume:" +:+ d) = true.
Proof. cbn. destruct d; reflexivity. Qed.

Lemma alarm_name_not_global (d : string) :
  String.eqb ("fg:resume:" +:+ d) "fg:resumeAll" = false.
Proof. apply String.eqb_neq, alarm_name_global. Qed.

Lemma onAlarm_domain (env : Env) (w : World) (d : string) :
  d <> "" -> onAlarm env ("fg:resume:" +:+ d) w = resumeDomainNow env (JStr d) w.
Proof.
  intros Hd. unfold onAlarm.
  rewrite alarm_name_not_global, alarm_name_prefix, alarm_name_domain.
  rewrite truthy_nonempty by exact Hd. reflexivity.
Qed.

(** X3.  The alarm names lead back to what armed them: [fg:resumeAll] runs
    [resumeAllNow]; [fg:resume:] followed by a non-empty domain runs
    [resumeDomainNow] on exactly that domain; [fg:resume:] with nothing after
    it, and every name that is not a snooze alarm, leave the world as it
    is. *)
Theorem alarm_names_lead_back (env : Env) (w : World) :
  onAlarm env "fg:resumeAll" w = resumeAllNow env w /\
  (forall d, d <> "" -> onAlarm env ("fg:resume:" +:+ d) w = resumeDomainNow env (JStr d) w) /\
  onAlarm env "fg:resume:" w = (w, Ok tt) /\
  (forall name, isResumeAlarm name = false -> onAlarm env name w = (w, Ok tt)).
Proof.
  split; [reflexivity|]. split; [|split; [reflexivity|]].
  - intros d Hd. apply onAlarm_domain, Hd.
  - intros name Hname. unfold isResumeAlarm in Hname. apply orb_false_iff in Hname as [H1 H2].
    unfold onAlarm. rewrite H1, H2. reflexivity.
Qed.




(** ** Global snooze *)




Lemma forEach_disarm (names : list string) (w : World) :
  forEach names (fun name =>
      if String.prefix "fg:resume:" name then alarms_clear name else ret tt) w
  = (withAlarms (fun a => disarm a names) w, Ok tt).
Proof.
  revert w. induction names as [|name names IH]; intros w.
  - destruct w; reflexivity.
  - cbn [forEach]. run_unfold. unfold disarm. cbn [foldl].
    destruct (String.prefix "fg:resume:" name); unfold alarms_clear, modify; cbn; rewrite IH;
      destruct w; reflexivity.
Qed.

Lemma disarm_lookup (names : list string) (a : gmap string Z) (name : string) :
  disarm a names !! name
  = if String.prefix "fg:resume:" name && bool_decide (name ∈ names) then None else a !! name.
Proof.
  unfold disarm. revert a. induction names as [|x names IH]; intros a.
  - cbn. rewrite andb_false_r. reflexivity.
  - cbn [foldl]. rewrite IH. clear IH.
    destruct (String.prefix "fg:resume:" name) eqn:Ep; cbn [andb].
    + destruct (decide (name = x)) as [->|Hne].
      * rewrite (bool_decide_eq_true_2 (x ∈ x :: names)) by left.
        destruct (bool_decide (x ∈ names)); [reflexivity|].
        rewrite Ep. apply lookup_delete_eq.
      * destruct (bool_decide (name ∈ names)) eqn:Ein.
        -- apply bool_decide_eq_true in Ein.
           rewrite (bool_decide_eq_true_2 (name ∈ x :: names)) by (right; exact Ein).
           reflexivity.
        -- apply bool_decide_eq_false in Ein.
           rewrite (bool_decide_eq_false_2 (name ∈ x :: names))
             by (intros [?|?]%elem_of_cons; tauto).
           destruct (String.prefix "fg:resume:" x); [|reflexivity].
           apply lookup_delete_ne. congruence.
    + destruct (String.prefix "fg:resume:" x) eqn:Ex; [|reflexivity].
      apply lookup_delete_ne. intros ->. congruence.
Qed.

Lemma resumeAllNow_run (env : Env) (w : World) :
  let w1 := withStorage
              (fun s => mkStorage (blockedDomains s) 0 ∅ (pendingGrants s)) w in
  resumeAllNow env w
  = match syncRules env w1 with
    | (w2, Ok _) =>
        (withAlarms (fun a => disarm (delete "fg:resumeAll" a)
                                (map_to_list (delete "fg:resumeAll" a)).*1) w2, Ok tt)
    | (w2, Throw e) => (w2, Throw e)
    | (w2, OutOfFuel) => (w2, OutOfFuel)
    end.
Proof.
  cbn zeta. unfold resumeAllNow, setGlobalPause, clearAllDomainPauses,
    set_pausedUntilTs, set_pausedDomains, modify.
  run_unfold. cbn [Z.eqb fst snd].
  replace (withStorage _ (withStorage _ w))
    with (withStorage (fun s => mkStorage (blockedDomains s) 0 ∅ (pendingGrants s)) w)
    by (destruct w as [[? ? ? ?] ? ? ? ? ?]; reflexivity).
  remember (syncRules env _) as r eqn:Hr. destruct r as [w2 [[]| |]]; try reflexivity.
  unfold alarms_clear, modify, get. cbn [fst snd]. rewrite forEach_disarm.
  destruct w2; reflexivity.
Qed.

Lemma isResumeAlarm_cleared (a : gmap string Z) (name : string) :
  disarm (delete "fg:resumeAll" a) (map_to_list (delete "fg:resumeAll" a)).*1 !! name
  = if isResumeAlarm name then None else a !! name.
Proof.
  rewrite disarm_lookup. unfold isResumeAlarm.
  destruct (String.eqb_spec name "fg:resumeAll") as [->|Hne]; cbn [orb].
  - rewrite lookup_delete_eq. destruct (_ && _); reflexivity.
  - rewrite lookup_delete_ne by congruence.
    destruct (String.prefix "fg:resume:" name); cbn [andb]; [|reflexivity].
    destruct (bool_decide _) eqn:Ein; [reflexivity|].
    apply bool_decide_eq_false in Ein.
    destruct (a !! name) as [ts|] eqn:Ea; [|reflexivity].
    exfalso. apply Ein. apply list_elem_of_fmap. exists (name, ts). split; [reflexivity|].
    apply elem_of_map_to_list. rewrite lookup_delete_ne by congruence. exact Ea.
Qed.

(** X6.  [resumeAllNow], called with the mutex free: the global pause is
    stored as 0 and the map of per-domain pauses as empty; the pass that
    follows compiles a rule for exactly the declared domains that are
    permitted at its scan, paused or not before; and when the pass does not
    throw, [fg:resumeAll] and every alarm whose name begins with [fg:resume:]
    are gone, all other alarms being kept. *)
Theorem resume_all_clears (env : Env) (w : World) :
  flags w = mkFlags false false ->
  let w' := (resumeAllNow env w).1 in
  pausedUntilTs (storage w') = 0 /\
  pausedDomains (storage w') = ∅ /\
  (exists removed compiled,
     ruleUpdates (trace w') = ruleUpdates (trace w) ++ [(removed, compiled)] /\
     forall d, blocks compiled d <->
       d ∈ blockedDomains (storage w) /\
       permitted env (clock env (S (ticks w))) (pendingGrants (storage w)) d = true) /\
  ((resumeAllNow env w).2 = Ok tt ->
   forall name, alarms w' !! name = if isResumeAlarm name then None else alarms w !! name).
Proof.
  intros Hf. cbn zeta. rewrite resumeAllNow_run. cbn zeta.
  set (w1 := withStorage _ w).
  assert (Hf1 : flags w1 = mkFlags false false) by (destruct w; exact Hf).
  assert (Hw1 : pausedDomains (storage w1) = ∅ /\
                blockedDomains (storage w1) = blockedDomains (storage w) /\
                pausedUntilTs (storage w1) = 0 /\
                pendingGrants (storage w1) = pendingGrants (storage w) /\
                ticks w1 = ticks w /\
                ruleUpdates (trace w1) = ruleUpdates (trace w) /\
                alarms w1 = alarms w)
    by (destruct w as [[? ? ? ?] ? ? ? ? ?]; repeat split; reflexivity).
  destruct Hw1 as (Hpd1 & Hb1 & Hu1 & Hg1 & Ht1 & Hr1 & Ha1).
  destruct (syncRules_idle_effect env w1 Hf1) as (_ & Hst2 & _ & Hup2 & _ & Hal2).
  assert (Hcompiled : forall d, blocks (desiredRules env w1) d <->
            d ∈ blockedDomains (storage w) /\
            permitted env (clock env (S (ticks w))) (pendingGrants (storage w)) d = true).
  { intros d. rewrite blocks_desired, passActive_elem, Hb1, Hu1, Hg1, Ht1, Hpd1.
    rewrite lookup_empty. cbn. tauto. }
  assert (Hs2 : pausedUntilTs (storage (syncRules env w1).1) = 0 /\
                pausedDomains (storage (syncRules env w1).1) = ∅).
  { rewrite Hst2. cbn [pausedUntilTs pausedDomains reconcileStorage]. auto. }
  destruct Hs2 as [Hu2 Hpd2].
  destruct (syncRules env w1) as [w2 res] eqn:Hsync. cbn [fst snd] in *.
  destruct res as [[]|e|]; cbn [fst snd].
  - replace (storage (withAlarms _ w2)) with (storage w2) by (destruct w2; reflexivity).
    replace (trace (withAlarms _ w2)) with (trace w2) by (destruct w2; reflexivity).
    split; [exact Hu2|]. split; [exact Hpd2|]. split.
    + exists (ourIds w1), (desiredRules env w1). rewrite Hup2, Hr1. auto.
    + intros _ name. destruct w2 as [? ? al2 ? ? ?]. cbn in Hal2 |- *. subst al2.
      exact (isResumeAlarm_cleared (alarms w) name).
  - split; [exact Hu2|]. split; [exact Hpd2|]. split; [|discriminate].
    exists (ourIds w1), (desiredRules env w1). rewrite Hup2, Hr1. auto.
  - split; [exact Hu2|]. split; [exact Hpd2|]. split; [|discriminate].
    exists (ourIds w1), (desiredRules env w1). rewrite Hup2, Hr1. auto.
Qed.

Lemma resume_all_clears_witness :
  pausedUntilTs (storage (resumeAllNow restartEnv restartWorld).1) = 0.
Proof. apply (resume_all_clears restartEnv restartWorld). reflexivity. Defined.

(** ** Pending grants *)

Lemma setPendingGrant_clear (env : Env) (d : JsVal) (w : World) :
  setPendingGrant env d 0 w
  = (withStorage
       (fun s => mkStorage (blockedDomains s) (pausedUntilTs s) (pausedDomains s)
                   (delete (toPropertyKey d) (pendingGrants s))) w,
     Ok tt).
Proof.
  unfold setPendingGrant, getPendingGrants, set_pendingGrants. run_unfold.
  destruct w as [[b u pd pg] ru al fl ti tr]. reflexivity.
Qed.


Lemma onMessage_markGranted (env : Env) (d m : JsVal) (w : World) :
  truthy d = true ->
  onMessage env (mkMessage (JStr "markGranted") d m) w
  = match syncRules env (setPendingGrant env d 0 w).1 with
    | (w2, Ok _) => (w2, Ok success)
    | (w2, Throw e) => (w2, Ok (failure e))
    | (w2, OutOfFuel) => (w2, OutOfFuel)
    end.
Proof.
  intros Hd. unfold onMessage, dispatch. run_unfold. cbn [cmd domain minutes].
  change (String.eqb "markGranted" "syncRules") with false.
  change (String.eqb "markGranted" "pauseForMinutes") with false.
  change (String.eqb "markGranted" "resumeNow") with false.
  change (String.eqb "markGranted" "pauseDomain") with false.
  change (String.eqb "markGranted" "resumeDomain") with false.
  change (String.eqb "markGranted" "markPending") with false.
  change (String.eqb "markGranted" "markGranted") with true.
  cbn iota. rewrite Hd. rewrite setPendingGrant_clear. cbn [fst snd].
  remember (syncRules env _) as r eqn:Hr. destruct r as [w2 [[]| |]]; reflexivity.
Qed.



(** X8.  [markGranted] for a non-empty domain string to which the permission
    check reports no access, the mutex being free: the pending grant of the
    domain is deleted, the pass that follows compiles no rule for the domain
    and the domain is not in the stored blocklist afterwards; the answer is
    [{ok: true}] when the update is accepted and [{ok: false}] with the
    browser's message when it is rejected. *)
Theorem granted_without_grant_removes (env : Env) (w : World) (d : string) :
  flags w = mkFlags false false ->
  d <> "" ->
  hasAccess env d = false ->
  let granted := onMessage env (mkMessage (JStr "markGranted") (JStr d) JUndefined) w in
  pendingGrants (storage (fst granted)) !! d = None /\
  (d ∉ blockedDomains (storage (fst granted))) /\
  (exists removed compiled,
     ruleUpdates (trace (fst granted)) = ruleUpdates (trace w) ++ [(removed, compiled)] /\
     ~ blocks compiled d /\
     snd granted = match rejects env (dynamicRules w) removed compiled with
                 | Some message => Ok (failure message)
                 | None => Ok success
                 end).
Proof.
  intros Hf Hd Hno. cbn zeta.
  rewrite (onMessage_markGranted env (JStr d) JUndefined w (truthy_nonempty d Hd)).
  rewrite setPendingGrant_clear. cbn [fst toPropertyKey].
  set (w1 := withStorage _ w).
  assert (Hf1 : flags w1 = mkFlags false false) by (destruct w; exact Hf).
  assert (Hw1 : pendingGrants (storage w1) = delete d (pendingGrants (storage w)) /\
                blockedDomains (storage w1) = blockedDomains (storage w) /\
                ruleUpdates (trace w1) = ruleUpdates (trace w) /\
                dynamicRules w1 = dynamicRules w /\
                ourIds w1 = ourIds w)
    by (destruct w as [[? ? ? ?] ? ? ? ? ?]; repeat split; reflexivity).
  destruct Hw1 as (Hg1 & Hb1 & Hr1 & Hd1 & Ho1).
  destruct (syncRules_idle_effect env w1 Hf1) as (_ & Hst2 & _ & Hup2 & _ & _).
  destruct (syncRules_idle_outcome env w1 Hf1) as (Hres & _).
  assert (Hden : permitted env (clock env (S (ticks w1))) (pendingGrants (storage w1)) d = false).
  { unfold permitted. rewrite Hg1, lookup_delete_eq, Hno. reflexivity. }
  assert (Hgone : pendingGrants (storage (syncRules env w1).1) !! d = None).
  { rewrite Hst2. cbn [pendingGrants reconcileStorage].
    destruct (sweep _ _ _ !! d) as [ts|] eqn:Es; [|reflexivity].
    exfalso. revert Es. rewrite Hg1.
    generalize (blockedDomains (storage w1)). intros ds. unfold sweep.
    assert (Hnone : delete d (pendingGrants (storage w)) !! d = None) by apply lookup_delete_eq.
    revert Hnone. generalize (delete d (pendingGrants (storage w))). 
    induction ds as [|x ds IH]; intros p Hp; cbn [foldl]; [congruence|].
    apply IH. destruct (lapsedEntry _ _); [|exact Hp].
    destruct (decide (x = d)) as [->|Hne]; [apply lookup_delete_eq|].
    rewrite lookup_delete_ne by exact Hne. exact Hp. }
  assert (Hout : d ∉ blockedDomains (storage (syncRules env w1).1)).
  { rewrite Hst2, reconciled_blocklist_elem. intros [Hin [Hp|Hall]]; [congruence|].
    pose proof (proj1 (forallb_permitted _ _ _ _) Hall d Hin). congruence. }
  assert (Hnot : ~ blocks (desiredRules env w1) d).
  { rewrite blocks_desired, passActive_elem. intros (_ & _ & Hp & _). congruence. }
  rewrite Hd1, Ho1 in Hres.
  destruct (syncRules env w1) as [w2 res] eqn:Hsync. cbn [fst snd] in *.
  destruct (rejects env (dynamicRules w) (ourIds w) (desiredRules env w1)) as [message|] eqn:Hrej;
    subst res; cbn [fst snd];
    (split; [exact Hgone|]); (split; [exact Hout|]);
    exists (ourIds w), (desiredRules env w1); rewrite Hup2, Hr1, Ho1, Hrej; auto.
Qed.

Lemma granted_without_grant_removes_witness :
  "x.com" ∉ blockedDomains
    (storage (onMessage revokedEnv (mkMessage (JStr "markGranted") (JStr "x.com") JUndefined)
                settledWorld).1).
Proof.
  apply (granted_without_grant_removes revokedEnv settledWorld "x.com");
    first [reflexivity | discriminate].
Defined.

(** ** Failure and contention *)

Lemma onMessage_syncRules (env : Env) (d m : JsVal) (w : World) :
  onMessage env (mkMessage (JStr "syncRules") d m) w
  = match syncRules env w with
    | (w1, Ok _) => (w1, Ok success)
    | (w1, Throw e) => (w1, Ok (failure e))
    | (w1, OutOfFuel) => (w1, OutOfFuel)
    end.
Proof.
  unfold onMessage, dispatch. run_unfold. cbn [cmd].
  change (String.eqb "syncRules" "syncRules") with true. cbn beta iota.
  remember (syncRules env w) as r eqn:Hr. destruct r as [w1 [[]| |]]; reflexivity.
Qed.

(** X9.  A rejected update does not wedge the worker.  When the browser
    rejects the rule update of a pass started with the mutex free,
    [syncRules] throws the browser's message, the installed rules are as
    before, both flags are false again, so that the next call starts a pass of
    its own, and the [syncRules] command answers [{ok: false}] with that
    message. *)
Theorem rejected_update_surfaces (env : Env) (w : World) (message : string) :
  flags w = mkFlags false false ->
  rejects env (dynamicRules w) (ourIds w) (desiredRules env w) = Some message ->
  let w' := (syncRules env w).1 in
  (syncRules env w).2 = Throw message /\
  dynamicRules w' = dynamicRules w /\
  flags w' = mkFlags false false /\
  passes (trace (syncRules env w').1) = S (S (passes (trace w))) /\
  (forall d m,
     onMessage env (mkMessage (JStr "syncRules") d m) w = (w', Ok (failure message))).
Proof.
  intros Hf Hrej. cbn zeta.
  destruct (syncRules_idle_effect env w Hf) as (Hf1 & _ & _ & _ & Hp1 & _).
  destruct (syncRules_idle_outcome env w Hf) as (Hres & Hrules).
  rewrite Hrej in Hres, Hrules.
  destruct (syncRules_idle_effect env _ Hf1) as (_ & _ & _ & _ & Hp2 & _).
  split; [exact Hres|]. split; [exact Hrules|]. split; [exact Hf1|].
  split; [rewrite Hp2, Hp1; reflexivity|].
  intros d m. rewrite onMessage_syncRules.
  destruct (syncRules env w) as [w1 res]. cbn [fst snd] in *. subst res. reflexivity.
Qed.

Lemma rejected_update_surfaces_witness :
  let env := mkEnv (fun _ => 1000%N) (fun _ => Granted) (fun _ _ _ => Some "quota") in
  (syncRules env settledWorld).2 = Throw "quota".
Proof.
  apply (rejected_update_surfaces
           (mkEnv (fun _ => 1000%N) (fun _ => Granted) (fun _ _ _ => Some "quota"))
           settledWorld "quota"); reflexivity.
Defined.

(** X10.  A call of [syncRules] while a pass is in flight reads nothing and
    writes nothing but the flag [_needsResync]: storage, rules, alarms, clock
    and trace are as before; and the [syncRules] command then answers
    [{ok: true}] although no pass has run for it yet. *)
Theorem call_while_pass_in_flight (env : Env) (w : World) :
  _syncing (flags w) = true ->
  syncRules env w = (withFlags (fun _ => mkFlags true true) w, Ok tt) /\
  (forall d m,
     onMessage env (mkMessage (JStr "syncRules") d m) w
     = (withFlags (fun _ => mkFlags true true) w, Ok success)).
Proof.
  intros Hs. unfold syncRules at 1. rewrite syncRules_busy by exact Hs.
  split; [reflexivity|]. intros d m. rewrite onMessage_syncRules.
  unfold syncRules. rewrite syncRules_busy by exact Hs. reflexivity.
Qed.

Lemma call_while_pass_in_flight_witness :
  syncRules pausedEnv (withFlags (fun _ => mkFlags true false) pausedWorld)
  = (withFlags (fun _ => mkFlags true true) pausedWorld, Ok tt).
Proof.
  apply (call_while_pass_in_flight pausedEnv (withFlags (fun _ => mkFlags true false) pausedWorld)).
  reflexivity.
Defined.

(** ** The reserved range and the number of rules *)

Lemma compiled_in_range (active : list string) (rule : Rule) :
  Z.of_nat (length active) <= 90000 -> rule ∈ compileRules active -> inOurRange rule = true.
Proof.
  intros Hlen Hin. apply list_elem_of_lookup in Hin as [i Hi].
  rewrite compileRules_lookup in Hi. destruct (active !! i) as [d|] eqn:Ed; [|discriminate].
  apply lookup_lt_Some in Ed. injection Hi as <-.
  apply inOurRange_spec. cbn. unfold RULE_BASE. lia.
Qed.

Lemma filter_none {A} (P : A -> Prop) `{!forall x, Decision (P x)} (l : list A) :
  (forall x, x ∈ l -> ~ P x) -> filter P l = [].
Proof.
  induction l as [|x l IH]; intros Hnone; [reflexivity|].
  rewrite filter_cons, decide_False by (apply Hnone; left).
  apply IH. intros y Hy. apply Hnone. right. exact Hy.
Qed.

(** X11.  With at most 90000 active domains every compiled identifier lies
    in the reserved range, and an accepted pass started with the mutex free
    leaves exactly the compiled rules installed in the range and exactly the
    former rules outside it.  The identifier of a domain at position 90000 or
    beyond lies outside the range. *)
Theorem accepted_pass_installs_exactly (env : Env) (w : World) :
  flags w = mkFlags false false ->
  Z.of_nat (length (passActive env w)) <= 90000 ->
  (syncRules env w).2 = Ok tt ->
  let w' := (syncRules env w).1 in
  filter (fun r => inOurRange r = true) (dynamicRules w') = desiredRules env w /\
  foreign w' = foreign w /\
  (forall i d, 90000 <= Z.of_nat i ->
     inOurRange (domainRule (RULE_BASE + Z.of_nat i) d) = false).
Proof.
  intros Hf Hlen Hok. cbn zeta.
  destruct (syncRules_idle_outcome env w Hf) as (Hres & Hrules).
  rewrite Hres in Hok.
  destruct (rejects env _ _ _); [discriminate|]. clear Hok Hres.
  assert (Hin : forall r, r ∈ desiredRules env w -> inOurRange r = true)
    by (intros r; apply compiled_in_range, Hlen).
  assert (Hout : forall r, r ∈ foreign w -> inOurRange r = false)
    by (intros r [Hr _]%list_elem_of_filter; exact Hr).
  split; [|split].
  - rewrite Hrules, filter_app, (filter_all _ (desiredRules env w)) by exact Hin.
    rewrite (filter_none _ (foreign w)); [reflexivity|].
    intros r Hr. rewrite (Hout r Hr). discriminate.
  - unfold foreign at 1. rewrite Hrules, filter_app.
    rewrite (filter_all _ (foreign w)) by exact Hout.
    rewrite (filter_none _ (desiredRules env w)); [apply app_nil_r|].
    intros r Hr. rewrite (Hin r Hr). discriminate.
  - intros i d Hi. unfold inOurRange. cbn [id domainRule]. unfold RULE_BASE.
    apply andb_false_iff. right. apply Z.ltb_ge. lia.
Qed.

Lemma accepted_pass_installs_exactly_witness :
  foreign (syncRules pausedEnv pausedWorld).1 = foreign pausedWorld.
Proof.
  apply (accepted_pass_installs_exactly pausedEnv pausedWorld);
    [reflexivity | vm_compute; discriminate | reflexivity].
Defined.

(** ** The reconciler's writes *)

Lemma sweep_lookup (now : N) (ds : list string) (p : gmap string Z) (k : string) :
  sweep now ds p !! k
  = if bool_decide (k ∈ ds) && lapsedEntry now (p !! k) then None else p !! k.
Proof.
  unfold sweep. revert p. induction ds as [|x ds IH]; intros p; [reflexivity|].
  cbn [foldl]. rewrite IH. clear IH.
  destruct (decide (k = x)) as [->|Hne].
  - rewrite (bool_decide_eq_true_2 (x ∈ x :: ds)) by left. cbn [andb].
    destruct (lapsedEntry now (p !! x)) eqn:El.
    + rewrite lookup_delete_eq. cbn. rewrite andb_false_r. reflexivity.
    + rewrite El, andb_false_r. reflexivity.
  - assert (Hmem : bool_decide (k ∈ x :: ds) = bool_decide (k ∈ ds)).
    { apply bool_decide_ext. rewrite elem_of_cons. tauto. }
    rewrite Hmem.
    destruct (lapsedEntry now (p !! x)); [|reflexivity].
    rewrite lookup_delete_ne by congruence. reflexivity.
Qed.

(** X12.  [reconcileDomains] deletes from the stored pending grants exactly
    the entries of scanned domains that have run out at scan time; running
    entries and entries of domains that were not scanned are kept, and the
    stored pauses are not touched. *)
Theorem reconcile_sweeps_lapsed_grants (env : Env) (domains : list string) (w : World) :
  let now := clock env (ticks w) in
  let s' := storage (reconcileDomains env domains w).1 in
  (forall k,
     pendingGrants s' !! k
     = if bool_decide (k ∈ domains) && lapsedEntry now (pendingGrants (storage w) !! k)
       then None else pendingGrants (storage w) !! k) /\
  pausedUntilTs s' = pausedUntilTs (storage w) /\
  pausedDomains s' = pausedDomains (storage w).
Proof.
  cbn zeta. destruct (reconcileDomains_run env domains w) as [qs Hrun]. cbn zeta in Hrun.
  rewrite Hrun. destruct w as [[b u pd pg] ru al fl ti tr]. cbn.
  split; [|split; reflexivity]. intros k. apply sweep_lookup.
Qed.

Lemma sweep_nothing (now : N) (ds : list string) (p : gmap string Z) :
  (forall d, d ∈ ds -> lapsedEntry now (p !! d) = false) -> sweep now ds p = p.
Proof.
  intros Hnone. apply map_eq. intros k. rewrite sweep_lookup.
  destruct (bool_decide (k ∈ ds)) eqn:Ek; [|reflexivity].
  apply bool_decide_eq_true in Ek. rewrite (Hnone k Ek). reflexivity.
Qed.

(** X13.  When every scanned domain is permitted and none of them has a
    pending grant that ran out, [reconcileDomains] returns the list it was
    given and leaves storage exactly as it was. *)
Theorem reconcile_leaves_storage_alone (env : Env) (domains : list string) (w : World) :
  let now := clock env (ticks w) in
  (forall d, d ∈ domains -> permitted env now (pendingGrants (storage w)) d = true) ->
  (forall d, d ∈ domains -> lapsedEntry now (pendingGrants (storage w) !! d) = false) ->
  (reconcileDomains env domains w).2 = Ok domains /\
  storage (reconcileDomains env domains w).1 = storage w.
Proof.
  cbn zeta. intros Hall Hfresh.
  destruct (reconcileDomains_run env domains w) as [qs Hrun]. cbn zeta in Hrun.
  rewrite Hrun. cbn [fst snd]. split.
  - f_equal. apply filter_all. exact Hall.
  - destruct w as [[b u pd pg] ru al fl ti tr]. cbn in *. unfold reconcileStorage. cbn.
    rewrite (proj2 (forallb_permitted _ _ _ _) Hall), (sweep_nothing _ _ _ Hfresh).
    reflexivity.
Qed.

Lemma reconcile_leaves_storage_alone_witness :
  storage (reconcileDomains pausedEnv ["a.com"; "b.com"] pausedWorld).1 = storage pausedWorld.
Proof.
  apply (reconcile_leaves_storage_alone pausedEnv ["a.com"; "b.com"] pausedWorld).
  - intros d Hd. unfold permitted, hasAccess, wellFormed.
    apply elem_of_cons in Hd as [->|Hd]; [reflexivity|].
    apply elem_of_cons in Hd as [->|Hd]; [reflexivity|]. inversion Hd.
  - intros d Hd. reflexivity.
Defined.

(** X14.  The list [reconcileDomains] stores on a denial is a canonical form:
    two lists with the same members, in any order and with any repetitions,
    are stored as the same list, and storing a stored list again changes
    nothing. *)
Theorem stored_blocklist_canonical (l1 l2 : list string) :
  (forall x, x ∈ l1 <-> x ∈ l2) ->
  sort (arrayFromSet l1) = sort (arrayFromSet l2) /\
  sort (arrayFromSet (sort (arrayFromSet l1))) = sort (arrayFromSet l1).
Proof.
  intros Hsame. split.
  - apply (Sorted_unique JsString.le); [apply sort_sorted..|].
    apply NoDup_Permutation; [apply uniqSorted_NoDup..|].
    intros x. rewrite !uniqSorted_elem. apply Hsame.
  - apply uniqSorted_fixed; [apply sort_sorted|apply uniqSorted_NoDup].
Qed.

Lemma stored_blocklist_canonical_witness :
  sort (arrayFromSet ["b.com"; "a.com"; "b.com"]) = sort (arrayFromSet ["a.com"; "b.com"]).
Proof.
  apply (stored_blocklist_canonical ["b.com"; "a.com"; "b.com"] ["a.com"; "b.com"]).
  intros x. rewrite !elem_of_cons, !elem_of_nil. tauto.
Defined.

(** ** A change of the blocklist *)









(** ** The blocked page, for any domain *)

(** X17.  What the blocked page shows for a rule's redirect target, for any
    non-empty domain: the domain the rule was compiled for, with a leading
    [www.] (in any case) removed and in lower case. *)
Theorem blocked_page_normalises (ruleId : Z) (d : string) :
  d <> EmptyString ->
  BlockedPage.getDomainFromHash
    (BlockedPage.locationHash (extensionPath (domainRule ruleId d)))
  = Some (JsString.toLowerCase (JsString.stripWww d)).
Proof.
  intros Hne. rewrite locationHash_of_rule. unfold BlockedPage.getDomainFromHash.
  rewrite JsStringFacts.matchParam_fragment
    by (auto using encode_nonempty, JsStringFacts.encode_safe).
  rewrite JsStringFacts.decode_encode. reflexivity.
Qed.

Lemma blocked_page_normalises_witness :
  BlockedPage.getDomainFromHash
    (BlockedPage.locationHash (extensionPath (domainRule 100000 "WWW.News.Example.COM")))
  = Some "news.example.com".
Proof.
  apply (blocked_page_normalises 100000 "WWW.News.Example.COM"). discriminate.
Defined.

Lemma lowerUnit_twice (c : ascii) :
  JsString.lowerUnit (JsString.lowerUnit c) = JsString.lowerUnit c.
Proof. destruct c as [[] [] [] [] [] [] [] []]; reflexivity. Qed.

Lemma toLowerCase_twice (s : string) :
  JsString.toLowerCase (JsString.toLowerCase s) = JsString.toLowerCase s.
Proof.
  induction s as [|c s IH]; [reflexivity|]. simpl. rewrite lowerUnit_twice, IH. reflexivity.
Qed.

(** X18.  Whatever the fragment, the domain the blocked page reads from it is
    in lower case already. *)
Theorem blocked_page_domain_lowercase (hash domain : string) :
  BlockedPage.getDomainFromHash hash = Some domain ->
  JsString.toLowerCase domain = domain.
Proof.
  unfold BlockedPage.getDomainFromHash.
  destruct (JsString.matchParam hash) as [m|].
  - destruct (JsString.decodeURIComponent m) as [s|]; [|discriminate].
    intros [= <-]. apply toLowerCase_twice.
  - intros [= <-]. reflexivity.
Qed.

Lemma blocked_page_domain_lowercase_witness :
  JsString.toLowerCase "shop.example" = "shop.example".
Proof.
  apply (blocked_page_domain_lowercase "#x=1&d=Shop.Example&t=2" "shop.example").
  reflexivity.
Defined.

Lemma append_inj_l (p a b : string) : p +:+ a = p +:+ b -> a = b.
Proof. induction p as [|c p IH]; cbn; [auto|]. intros [= H]. auto. Qed.

Lemma encode_inj (a b : string) :
  JsString.encodeURIComponent a = JsString.encodeURIComponent b -> a = b.
Proof.
  intros H. apply (f_equal JsString.decodeURIComponent) in H.
  rewrite !JsStringFacts.decode_encode in H. congruence.
Qed.

(** X19.  Rules compiled for two different domains differ in their filter
    and in their redirect target, whatever their identifiers: neither field
    of a rule can stand for two domains. *)
Theorem rule_identifies_domain (i j : Z) (d d' : string) :
  d <> d' ->
  urlFilter (domainRule i d) <> urlFilter (domainRule j d') /\
  extensionPath (domainRule i d) <> extensionPath (domainRule j d').
Proof.
  intros Hne. split; intros H; apply Hne.
  - apply (urlFilter_inj i j), H.
  - cbn in H. apply encode_inj, (append_inj_l "/blocked.html#d="), H.
Qed.

Lemma rule_identifies_domain_witness :
  urlFilter (domainRule 100000 "a b.com") <> urlFilter (domainRule 100000 "a%20b.com") /\
  extensionPath (domainRule 100000 "a b.com") <> extensionPath (domainRule 100000 "a%20b.com").
Proof.
  apply (rule_identifies_domain 100000 100000 "a b.com" "a%20b.com"). discriminate.
Defined.

(** ** Passes and requests *)

Lemma requests_step (s s' : Coordinator.State) (e : Coordinator.Event) :
  Coordinator.consistent s -> Coordinator.step s e = Some s' ->
  (Coordinator.started s' + Coordinator.waiting s'
   <= Coordinator.started s + Coordinator.waiting s + requests [e])%nat /\
  (Coordinator.started s <= Coordinator.started s')%nat /\
  (e = Coordinator.Request -> 0 < Coordinator.started s')%nat.
Proof.
  destruct s as [[sy nr] st fi wa]. unfold Coordinator.consistent. cbn.
  intros (Hle & Hsy & Hnr & Hwa) Hstep.
  destruct e; unfold Coordinator.step in Hstep;
    cbn [Coordinator.started Coordinator.finished] in Hstep.
  - injection Hstep as <-. unfold Coordinator.request, enter. cbn.
    destruct sy; cbn.
    + destruct Hsy as [Hsy _]. specialize (Hsy eq_refl). repeat split; intros; lia.
    + repeat split; intros; lia.
  - destruct (Nat.ltb_spec fi st) as [Hlt|Hge]; [|discriminate].
    injection Hstep as <-. unfold Coordinator.passEnds, leave, Coordinator.request, enter. cbn.
    destruct nr; cbn.
    + destruct Hwa as [Hwa _]. specialize (Hwa eq_refl).
      repeat split; intros; first [lia | discriminate].
    + repeat split; intros; first [lia | discriminate].
Qed.

Lemma requests_run (evs : list Coordinator.Event) (s s' : Coordinator.State) :
  Coordinator.consistent s -> Coordinator.run s evs = Some s' ->
  (Coordinator.started s' + Coordinator.waiting s'
   <= Coordinator.started s + Coordinator.waiting s + requests evs)%nat /\
  (Coordinator.started s <= Coordinator.started s')%nat /\
  (0 < requests evs -> 0 < Coordinator.started s')%nat.
Proof.
  revert s. induction evs as [|e evs IH]; intros s Hs Hrun; cbn [Coordinator.run] in Hrun.
  - injection Hrun as <-. cbn. repeat split; lia.
  - destruct (Coordinator.step s e) as [s1|] eqn:E; [|discriminate].
    destruct (requests_step s s1 e Hs E) as (H1 & H2 & H3).
    destruct (IH s1 (CoordinatorFacts.consistent_step s s1 e Hs E) Hrun) as (I1 & I2 & I3).
    destruct e; cbn [requests] in *.
    + specialize (H3 eq_refl). repeat split; intros; lia.
    + repeat split; intros; first [lia | apply I3; lia].
Qed.

(** X20.  Over any interleaving of calls and pass endings from the start of
    the worker, the passes begun never outnumber the calls of [syncRules],
    and once there was a call there was a pass. *)
Theorem passes_bounded_by_requests (evs : list Coordinator.Event) (s : Coordinator.State) :
  Coordinator.run Coordinator.initial evs = Some s ->
  (Coordinator.started s <= requests evs)%nat /\
  (0 < requests evs -> 0 < Coordinator.started s)%nat.
Proof.
  intros Hrun.
  destruct (requests_run evs _ s CoordinatorFacts.consistent_initial Hrun) as (H1 & _ & H3).
  cbn in H1. split; [lia|exact H3].
Qed.

Lemma passes_bounded_by_requests_witness :
  exists s,
    Coordinator.run Coordinator.initial
      [Coordinator.Request; Coordinator.Request; Coordinator.Request;
       Coordinator.PassEnds; Coordinator.PassEnds] = Some s /\
    Coordinator.started s = 2%nat /\
    (Coordinator.started s <= 3)%nat.
Proof.
  eexists. split; [reflexivity|]. split; [reflexivity|].
  apply (passes_bounded_by_requests
           [Coordinator.Request; Coordinator.Request; Coordinator.Request;
            Coordinator.PassEnds; Coordinator.PassEnds]).
  reflexivity.
Defined.

(** ** The debounce timer *)

Lemma debounce_schedules (times : list N) (s : Debounce.State) :
  Debounce.run s (Debounce.Schedule <$> times)
  = Some (Debounce.mkState
            (match last times with
             | Some t => Some (t + 120)%N
             | None => Debounce.timer s
             end)
            (Debounce.synced s)).
Proof.
  revert s. induction times as [|t times IH]; intros [ti sy]; [reflexivity|].
  cbn [fmap list_fmap Debounce.run Debounce.step]. rewrite IH. cbn.
  destruct times as [|t' times]; [reflexivity|]. cbn [last].
  destruct (last (t' :: times)) eqn:El; [reflexivity|].
  apply last_None in El. discriminate.
Qed.

Lemma debounce_run_app (evs evs' : list Debounce.Event) (s : Debounce.State) :
  Debounce.run s (evs ++ evs')
  = match Debounce.run s evs with
    | Some s1 => Debounce.run s1 evs'
    | None => None
    end.
Proof.
  revert s. induction evs as [|e evs IH]; intros s; [reflexivity|].
  cbn [app Debounce.run]. destruct (Debounce.step s e); [apply IH|reflexivity].
Qed.

(** X21.  Debouncing.  Any number of calls of [scheduleSync] with no timer
    running in between, the last of them at [t], lead to one call of
    [syncRules], not earlier than 120 ms after [t]; after it no timer is
    armed, so nothing more can fire. *)
Theorem debounce_burst (earlier : list N) (t fired : N) (s s' : Debounce.State) :
  Debounce.run s ((Debounce.Schedule <$> earlier ++ [t]) ++ [Debounce.Fires fired]) = Some s' ->
  Debounce.synced s' = Debounce.synced s ++ [fired] /\
  (t + 120 <= fired)%N /\
  forall later, Debounce.step s' (Debounce.Fires later) = None.
Proof.
  rewrite debounce_run_app, debounce_schedules, last_snoc.
  cbn [Debounce.run Debounce.step Debounce.timer].
  destruct (N.leb_spec (t + 120) fired) as [Hle|Hlt]; [|discriminate].
  intros [= <-]. cbn. auto.
Qed.

Lemma debounce_burst_witness :
  exists s',
    Debounce.run Debounce.initial
      [Debounce.Schedule 0; Debounce.Schedule 50; Debounce.Schedule 100; Debounce.Fires 221]
    = Some s' /\
    Debounce.synced s' = [221%N].
Proof.
  eexists. split; [reflexivity|].
  apply (debounce_burst [0%N; 50%N] 100 221 Debounce.initial). reflexivity.
Defined.

(** ** The popup and the worker *)

(** X22.  A grant of any one of the origins the popup requests for a domain
    is seen by the worker: for a well-formed domain [hasHostAccess] answers
    [true], and the reconciler keeps the domain whatever its pending grant. *)
Theorem granted_request_is_seen (env : Env) (d q : string) :
  wellFormed (JStr d) = true ->
  q ∈ Popup.origins d ->
  contains env q = Granted ->
  hasAccess env d = true /\
  (forall w, (hasHostAccess env (JStr d) w).2 = Ok true) /\
  (forall now pending, permitted env now pending d = true).
Proof.
  intros Hwf Hq Hgrant.
  assert (Hacc : hasAccess env d = true).
  { unfold hasAccess. rewrite Hwf. cbn [andb]. apply existsb_exists. exists q. split.
    - apply list_elem_of_In. unfold Popup.origins in Hq. unfold checks.
      repeat (apply elem_of_cons in Hq as [->|Hq]; [set_solver|]). inversion Hq.
    - unfold matches. rewrite Hgrant. reflexivity. }
  split; [exact Hacc|]. split.
  - intros w. rewrite hasHostAccess_run. cbn [snd]. rewrite Hacc. reflexivity.
  - intros now pending. unfold permitted. rewrite Hacc. apply orb_true_r.
Qed.

Lemma granted_request_is_seen_witness :
  hasAccess revokedEnv "a.com" = true.
Proof.
  apply (granted_request_is_seen revokedEnv "a.com" "https://*.a.com/*");
    [reflexivity | set_solver | reflexivity].
Defined.

Module RegexFacts.
Import Regex.

Lemma dead_nullable (r : re) : dead r = true -> nullable r = false.
Proof.
  induction r as [| |p|a IHa b IHb|a IHa b IHb|a IHa]; cbn; try discriminate; try reflexivity.
  - intros [H|H]%orb_prop; [rewrite (IHa H)|rewrite (IHb H), andb_false_r]; reflexivity.
  - intros [Ha Hb]%andb_prop. rewrite (IHa Ha), (IHb Hb). reflexivity.
Qed.

Lemma dead_deriv (c : ascii) (r : re) : dead r = true -> dead (deriv c r) = true.
Proof.
  induction r as [| |p|a IHa b IHb|a IHa b IHb|a IHa]; cbn; try discriminate; try reflexivity.
  - intros [H|H]%orb_prop.
    + rewrite (dead_nullable a H). cbn. rewrite (IHa H). reflexivity.
    + destruct (nullable a); cbn; rewrite ?H, ?(IHb H), ?orb_true_r; reflexivity.
  - intros [Ha Hb]%andb_prop. rewrite (IHa Ha), (IHb Hb). reflexivity.
Qed.

Lemma dead_test (s : string) (r : re) : dead r = true -> test r s = false.
Proof.
  revert r. induction s as [|c s IH]; intros r Hr; cbn.
  - apply dead_nullable, Hr.
  - apply IH, dead_deriv, Hr.
Qed.

Lemma within_deriv (P : ascii -> bool) (c : ascii) (r : re) :
  within P r -> within P (deriv c r).
Proof.
  induction r as [| |p|a IHa b IHb|a IHa b IHb|a IHa]; cbn; try tauto.
  - intros _. destruct (p c); exact I.
  - intros [Ha Hb]. destruct (nullable a); cbn; auto.
Qed.

Lemma outside_deriv (P : ascii -> bool) (c : ascii) (r : re) :
  within P r -> P c = false -> dead (deriv c r) = true.
Proof.
  intros Hr Hc.
  induction r as [| |p|a IHa b IHb|a IHa b IHb|a IHa]; cbn in *; try reflexivity.
  - destruct (p c) eqn:E; [|reflexivity]. rewrite (Hr c E) in Hc. discriminate.
  - destruct Hr as [Ha Hb]. destruct (nullable a); cbn; rewrite ?(IHa Ha), ?(IHb Hb); reflexivity.
  - destruct Hr as [Ha Hb]. rewrite (IHa Ha), (IHb Hb). reflexivity.
  - rewrite (IHa Hr). reflexivity.
Qed.

Lemma test_within (P : ascii -> bool) (s : string) (r : re) :
  within P r -> test r s = true -> JsString.allChars P s = true.
Proof.
  revert r. induction s as [|c s IH]; intros r Hr Ht; [reflexivity|].
  cbn in *. destruct (P c) eqn:Ec.
  - cbn. apply (IH (deriv c r)); [apply within_deriv, Hr|exact Ht].
  - rewrite (dead_test s _ (outside_deriv P c r Hr Ec)) in Ht. discriminate.
Qed.

Lemma within_Upto (P : ascii -> bool) (n : nat) (r : re) :
  within P r -> within P (Upto n r).
Proof. intros Hr. induction n as [|n IH]; cbn; auto. Qed.

Lemma test_nonempty (r : re) (s : string) :
  nullable r = false -> test r s = true -> s <> EmptyString.
Proof. intros Hn Ht ->. cbn in Ht. congruence. Qed.

End RegexFacts.

Lemma domainChar_unreserved (c : ascii) :
  Popup.domainChar c = true -> JsString.isUnreserved c = true.
Proof. destruct c as [[] [] [] [] [] [] [] []]; intros H; first [reflexivity | discriminate H]. Qed.

Lemma encode_domainChars (s : string) :
  JsString.allChars Popup.domainChar s = true -> JsString.encodeURIComponent s = s.
Proof.
  induction s as [|c s IH]; [reflexivity|]. cbn. intros [Hc Hs]%andb_prop.
  unfold JsString.encodeUnit. rewrite (domainChar_unreserved c Hc), (IH Hs). reflexivity.
Qed.

Lemma within_domainRegex : Regex.within Popup.domainChar Popup.domainRegex.
Proof.
  assert (Ha : forall c, Popup.alnum c = true -> Popup.domainChar c = true).
  { intros c H. unfold Popup.domainChar, Popup.alnumHyphen. rewrite H. reflexivity. }
  assert (Hh : forall c, Popup.alnumHyphen c = true -> Popup.domainChar c = true).
  { intros c H. unfold Popup.domainChar. rewrite H. reflexivity. }
  assert (Hd : forall c, Popup.dot c = true -> Popup.domainChar c = true).
  { intros c H. unfold Popup.domainChar. rewrite H. apply orb_true_r. }
  assert (Hl : Regex.within Popup.domainChar Popup.label).
  { unfold Popup.label, Regex.Opt. cbn [Regex.within].
    repeat split; first [assumption | apply RegexFacts.within_Upto; exact Hh]. }
  unfold Popup.domainRegex. cbn [Regex.within]. auto.
Qed.

(** X23.  A domain the popup accepts as valid is one the permission check of
    the worker does not turn down as malformed; once the protocol and the
    [www.] prefix are taken off, it is not empty, consists of letters,
    digits, hyphens and dots only, and so is its own URL encoding. *)
Theorem valid_domain_is_plain (domain : string) :
  Popup.isValidDomain domain = true ->
  wellFormed (JStr domain) = true /\
  Popup.cleanDomain domain <> EmptyString /\
  JsString.allChars Popup.domainChar (Popup.cleanDomain domain) = true /\
  JsString.encodeURIComponent (Popup.cleanDomain domain) = Popup.cleanDomain domain.
Proof.
  unfold Popup.isValidDomain. intros Hv.
  destruct (String.eqb domain "") eqn:Ee; [discriminate|].
  destruct (253 <? String.length domain)%nat eqn:El; [discriminate|]. cbn [orb] in Hv.
  assert (Hchars := RegexFacts.test_within _ _ _ within_domainRegex Hv).
  split; [|split; [|split]].
  - cbn [wellFormed]. rewrite Ee. cbn [negb andb].
    apply Nat.leb_le. apply Nat.ltb_ge in El. exact El.
  - apply (RegexFacts.test_nonempty Popup.domainRegex); [reflexivity|exact Hv].
  - exact Hchars.
  - apply encode_domainChars, Hchars.
Qed.

Lemma valid_domain_is_plain_witness :
  Popup.cleanDomain "HTTPS://www.News-24.example.com" = "News-24.example.com" /\
  JsString.encodeURIComponent "News-24.example.com" = "News-24.example.com".
Proof.
  split; [reflexivity|].
  apply (valid_domain_is_plain "HTTPS://www.News-24.example.com"). vm_compute. reflexivity.
Defined.
